(** * mod_auto_translator: a shallow embedding of [tranlator.py] and
      [translator_advance.py]

    The two scripts scan Minecraft mod archives (JAR = ZIP files) for
    language resources, send the reference-language mapping to a text
    generation service and append the translated mapping to the archive.

    Python values are modelled as follows.
    - [str] is a list of Unicode code points ([pystr]); [bytes] is a list
      of [Byte.byte].
    - An exception is a value of [exn]; a call that may raise returns an
      [outcome].
    - The file system is a finite map from paths to file contents; an
      archive file is described by the list of its members, in directory
      order (a ZIP file may hold several members of the same name).
    - [print], the request to the service and [time.sleep] are recorded
      as events of an output trace.
    - A step of the archive update that fails may have written to its
      destination before it failed: the environment says what it left
      there.
    - [json.loads], [json.dumps] and the remote service are parameters of
      the development; [json.loads] and [json.dumps] are taken as
      functions of their argument (the recursion limit of the
      interpreter, which depends on the depth of the call, is not
      reached).  A reference decoder and encoder for the float-free
      fragment of JSON instantiate them in the examples. *)

From Stdlib Require Import ZArith NArith Ascii String Bool Lia.
From Stdlib.Strings Require Import Byte.
From Stdlib Require Import DecimalString.
From stdpp Require Import base option list gmap relations.

Local Open Scope N_scope.

(** ** Python strings *)

Definition pystr : Type := list N.

(** An ASCII literal as a Python string. *)
Definition str (s : string) : pystr :=
  map N_of_ascii (list_ascii_of_string s).

Definition pystr_eqb (a b : pystr) : bool := bool_decide (a = b).

Module Py.

(** [s.startswith(p)], returning what follows the prefix. *)
Fixpoint strip_prefix (p s : pystr) : option pystr :=
  match p, s with
  | [], _ => Some s
  | _ :: _, [] => None
  | a :: p', b :: s' => if a =? b then strip_prefix p' s' else None
  end.

Definition startswith (s p : pystr) : bool :=
  match strip_prefix p s with Some _ => true | None => false end.

(** [s.find(sub)]: the lowest index at which [sub] occurs; [None] is
    Python's [-1]. *)
Fixpoint find (sub s : pystr) : option nat :=
  if startswith s sub then Some 0%nat
  else match s with
       | [] => None
       | _ :: s' => S <$> find sub s'
       end.

(** [s.find(sub, start)] for [0 <= start]. *)
Definition find_from (sub s : pystr) (start : nat) : option nat :=
  if decide (start ≤ length s)%nat
  then (λ i, (start + i)%nat) <$> find sub (drop start s)
  else None.

(** [sub in s]. *)
Definition contains (sub s : pystr) : bool :=
  match find sub s with Some _ => true | None => false end.

(** [s[a:b]] for [0 <= a], [0 <= b]. *)
Definition slice (s : pystr) (a b : nat) : pystr :=
  take (b - a) (drop a s).

(** [str.isspace] on one code point: the characters Python treats as
    white space. *)
Definition isspace (c : N) : bool :=
  ((9 <=? c) && (c <=? 13)) || ((28 <=? c) && (c <=? 32))
  || (c =? 133) || (c =? 160) || (c =? 5760)
  || ((8192 <=? c) && (c <=? 8202))
  || (c =? 8232) || (c =? 8233) || (c =? 8239) || (c =? 8287)
  || (c =? 12288).

Fixpoint lstrip (s : pystr) : pystr :=
  match s with
  | c :: s' => if isspace c then lstrip s' else s
  | [] => []
  end.

Definition rstrip (s : pystr) : pystr := rev (lstrip (rev s)).

(** [s.strip()]. *)
Definition strip (s : pystr) : pystr := rstrip (lstrip s).

(** [s.replace(old, new)] for a non-empty [old]: every non-overlapping
    occurrence, leftmost first.  [skip] counts the characters of an
    occurrence that are still to be dropped. *)
Fixpoint replace_aux (old new s : pystr) (skip : nat) : pystr :=
  match s with
  | [] => []
  | c :: s' =>
      match skip with
      | S k => replace_aux old new s' k
      | O =>
          if startswith s old
          then new ++ replace_aux old new s' (length old - 1)
          else c :: replace_aux old new s' 0
      end
  end.

Definition replace (s old new : pystr) : pystr :=
  replace_aux old new s 0.

(** [s.split(sep)] for a one-character separator. *)
Fixpoint split (sep : N) (s : pystr) : list pystr :=
  match s with
  | [] => [[]]
  | c :: s' =>
      if c =? sep then [] :: split sep s'
      else match split sep s' with
           | w :: ws => (c :: w) :: ws
           | [] => [[c]]
           end
  end.

(** [s.rfind(c)] for one character. *)
Definition rfind_char (c : N) (s : pystr) : option nat :=
  match find [c] (rev s) with
  | Some i => Some (length s - 1 - i)%nat
  | None => None
  end.

End Py.

(** ** The regular expressions of the two locators

    A pattern is a matcher in continuation-passing style: it is given
    what must match the rest of the subject.  [re.match] anchors the
    pattern at the start of the subject. *)

Module Re.

Definition matcher : Type := (pystr → bool) → pystr → bool.

Definition is_ascii_lower (c : N) : bool := (97 <=? c) && (c <=? 122).
Definition is_ascii_upper (c : N) : bool := (65 <=? c) && (c <=? 90).

Definition ascii_lower (c : N) : N :=
  if is_ascii_upper c then c + 32 else c.

(** The code points that an ASCII pattern character matches under
    [re.IGNORECASE] on a [str] pattern: the character, its other case,
    and the non-ASCII letters that case-fold to it (dotted capital I and
    dotless i for [i], long s for [s], the Kelvin sign for [k]). *)
Definition ichar (p c : N) : bool :=
  let lp := ascii_lower p in
  (c =? lp)
  || (is_ascii_lower lp && (c =? lp - 32))
  || ((lp =? 105) && ((c =? 304) || (c =? 305)))
  || ((lp =? 115) && (c =? 383))
  || ((lp =? 107) && (c =? 8490)).

(** A literal, compared with [ichar]. *)
Fixpoint ilit_prefix (p s : pystr) : option pystr :=
  match p, s with
  | [], _ => Some s
  | _ :: _, [] => None
  | a :: p', b :: s' => if ichar a b then ilit_prefix p' s' else None
  end.

Definition ilit (p : pystr) : matcher :=
  λ k s, match ilit_prefix p s with Some r => k r | None => false end.

Definition alt (m1 m2 : matcher) : matcher :=
  λ k s, m1 k s || m2 k s.

(** [[^/]+] *)
Fixpoint not_slash_plus (k : pystr → bool) (s : pystr) : bool :=
  match s with
  | [] => false
  | c :: s' => negb (c =? 47) && (k s' || not_slash_plus k s')
  end.

(** [$] without [re.MULTILINE]: the end of the subject, or just before
    a line feed that ends the subject. *)
Definition eos (s : pystr) : bool :=
  match s with
  | [] => true
  | [c] => c =? 10
  | _ => false
  end.

(** [re.compile(r'(assets|data)/[^/]+/lang/en_us\.json$',
    re.IGNORECASE).match], the pattern of [translator_advance.py]. *)
Definition lang_pattern_en_us (file_path : pystr) : bool :=
  alt (ilit (str "assets")) (ilit (str "data"))
    (ilit (str "/")
       (not_slash_plus
          (ilit (str "/lang/en_us.json") eos)))
    file_path.

(** [re.compile(r'(assets|data)/[^/]+/lang/[^/]+\.json$',
    re.IGNORECASE).match], the pattern of [tranlator.py]. *)
Definition lang_pattern_any (file_path : pystr) : bool :=
  alt (ilit (str "assets")) (ilit (str "data"))
    (ilit (str "/")
       (not_slash_plus
          (ilit (str "/lang/")
             (not_slash_plus
                (ilit (str ".json") eos)))))
    file_path.

End Re.

(** ** Path helpers shared by both scripts *)

(** [extract_mod_id]: the second segment of the path, ["unknown"] when
    the path has fewer than three segments or the segment is empty. *)
Definition extract_mod_id (file_path : pystr) : pystr :=
  let parts := Py.split 47 file_path in
  match parts with
  | _ :: p1 :: _ :: _ => if pystr_eqb p1 [] then str "unknown" else p1
  | _ => str "unknown"
  end.

(** [os.path.basename] with the POSIX separator. *)
Definition basename (p : pystr) : pystr :=
  match Py.rfind_char 47 p with
  | Some i => drop (S i) p
  | None => p
  end.

(** [os.path.splitext(filename)[0]]: the name up to its last dot, unless
    only dots precede that dot. *)
Definition splitext_root (filename : pystr) : pystr :=
  match Py.rfind_char 46 filename with
  | Some d =>
      if existsb (λ c, negb (c =? 46)) (take d filename)
      then take d filename else filename
  | None => filename
  end.

(** [extract_lang_code] *)
Definition extract_lang_code (file_path : pystr) : pystr :=
  splitext_root (basename file_path).

(** The derived entry path of [save_translated_json_to_jar]:
    [original_path.replace('en_us.json', 'ja_jp.json')]. *)
Definition ja_jp_path_of (original_path : pystr) : pystr :=
  Py.replace original_path (str "en_us.json") (str "ja_jp.json").

(** ** Exceptions *)

Inductive exn : Type :=
  | UnicodeDecodeError
  | UnicodeEncodeError
  | JSONDecodeError
  | BadZipFile
  | FileNotFoundError
  | OtherException (name : string).

Inductive outcome (A : Type) : Type :=
  | Ret (a : A)
  | Raise (e : exn).
Arguments Ret {A} a.
Arguments Raise {A} e.

Definition bind {A B} (x : outcome A) (f : A → outcome B) : outcome B :=
  match x with
  | Ret a => f a
  | Raise e => Raise e
  end.

Notation "'let*' x ':=' c 'in' k" := (bind c (λ x, k))
  (at level 10, x name, c at level 100, k at level 200).

(** ** Bytes and UTF-8 *)

Definition bytes : Type := list byte.

Module Utf8.

Definition cont (b : N) : bool := (128 <=? b) && (b <=? 191).
Definition surrogate (c : N) : bool := (55296 <=? c) && (c <=? 57343).

(** Strict decoding: overlong forms, surrogates and values above
    U+10FFFF are errors. *)
Fixpoint decode_N (l : list N) : option pystr :=
  match l with
  | [] => Some []
  | b0 :: t =>
      if b0 <? 128 then cons b0 <$> decode_N t
      else if (194 <=? b0) && (b0 <=? 223) then
        match t with
        | b1 :: t1 =>
            if cont b1
            then cons ((b0 - 192) * 64 + (b1 - 128)) <$> decode_N t1
            else None
        | _ => None
        end
      else if (224 <=? b0) && (b0 <=? 239) then
        match t with
        | b1 :: b2 :: t2 =>
            let c := (b0 - 224) * 4096 + (b1 - 128) * 64 + (b2 - 128) in
            if cont b1 && cont b2 && (2048 <=? c) && negb (surrogate c)
            then cons c <$> decode_N t2
            else None
        | _ => None
        end
      else if (240 <=? b0) && (b0 <=? 244) then
        match t with
        | b1 :: b2 :: b3 :: t3 =>
            let c := (b0 - 240) * 262144 + (b1 - 128) * 4096
                     + (b2 - 128) * 64 + (b3 - 128) in
            if cont b1 && cont b2 && cont b3
               && (65536 <=? c) && (c <=? 1114111)
            then cons c <$> decode_N t3
            else None
        | _ => None
        end
      else None
  end.

(** [b.decode('utf-8')] *)
Definition decode (b : bytes) : outcome pystr :=
  match decode_N (map Byte.to_N b) with
  | Some s => Ret s
  | None => Raise UnicodeDecodeError
  end.

Definition byte_of_N (n : N) : byte :=
  match Byte.of_N n with Some b => b | None => x00 end.

Definition encode_char (c : N) : option (list N) :=
  if c <? 128 then Some [c]
  else if c <? 2048 then Some [192 + c / 64; 128 + c mod 64]
  else if surrogate c then None
  else if c <? 65536
    then Some [224 + c / 4096; 128 + (c / 64) mod 64; 128 + c mod 64]
  else if c <=? 1114111
    then Some [240 + c / 262144; 128 + (c / 4096) mod 64;
               128 + (c / 64) mod 64; 128 + c mod 64]
  else None.

Fixpoint encode_N (s : pystr) : option (list N) :=
  match s with
  | [] => Some []
  | c :: s' =>
      match encode_char c, encode_N s' with
      | Some bs, Some r => Some (bs ++ r)
      | _, _ => None
      end
  end.

(** [s.encode('utf-8')] *)
Definition encode (s : pystr) : outcome bytes :=
  match encode_N s with
  | Some l => Ret (map byte_of_N l)
  | None => Raise UnicodeEncodeError
  end.

End Utf8.

(** ** JSON values

    The value [json.loads] returns: [None], a [bool], an [int], a [float],
    a [str], a [list] or a [dict] in insertion order.  The representation
    [F] of floats is left open; the scripts never compute with them. *)

#[warnings="-register-all"]
Inductive json (F : Type) : Type :=
  | JNull
  | JBool (b : bool)
  | JInt (z : Z)
  | JFloat (f : F)
  | JStr (s : pystr)
  | JList (l : list (json F))
  | JDict (d : list (pystr * json F)).
Arguments JNull {F}.
Arguments JBool {F} b.
Arguments JInt {F} z.
Arguments JFloat {F} f.
Arguments JStr {F} s.
Arguments JList {F} l.
Arguments JDict {F} d.

(** Truth value of a Python object in [if x:]. *)
Definition truthy {F} (float_truthy : F → bool) (v : json F) : bool :=
  match v with
  | JNull => false
  | JBool b => b
  | JInt z => negb (z =? 0)%Z
  | JFloat f => float_truthy f
  | JStr s => negb (pystr_eqb s [])
  | JList l => match l with [] => false | _ => true end
  | JDict d => match d with [] => false | _ => true end
  end.

(** [d.keys()] of a mapping; a value that is not a mapping has none. *)
Definition keys {F} (v : json F) : option (list pystr) :=
  match v with
  | JDict d => Some (map fst d)
  | _ => None
  end.

(** ** Archives and the file system *)

(** A member of a ZIP archive: its name and size as its directory record
    gives them, and what [ZipFile.read] returns for it (a member that is
    encrypted or fails its CRC check raises). *)
Record zip_member : Type := ZipMember {
  filename : pystr;
  file_size : N;
  payload : outcome bytes
}.

(** A file: the bytes that precede any ZIP structure, and the members of
    the ZIP directory at its end when there is one.  An ordinary archive
    has no leading bytes; a file that is not an archive has no
    directory. *)
Record file_data : Type := FileData {
  lead : bytes;
  zip_dir : option (list zip_member)
}.

Definition archive (ms : list zip_member) : file_data :=
  {| lead := []; zip_dir := Some ms |}.

Abbreviation fsys := (gmap pystr file_data).

(** ** Output trace *)

Inductive message : Type :=
  | MsgNotAJar (jar_path : pystr)
  | MsgJarError (jar_path : pystr) (e : exn)
  | MsgParseError (e : exn)
  | MsgResponseWas (head : pystr)
  | MsgEmptyResponse
  | MsgTranslateError (e : exn)
  | MsgBackupCreated (backup_path : pystr)
  | MsgAddedToJar (entry_path : pystr)
  | MsgJarUpdateError (e : exn)
  | MsgNoDirectory
  | MsgNoJars
  | MsgJarCount (n : nat)
  | MsgRule
  | MsgProcessing (jar_path : pystr)
  | MsgNoneFound
  | MsgFound (n : nat)
  | MsgDetail (mod_id lang_code path : pystr) (size : N)
  | MsgTranslating (path : pystr)
  | MsgDone
  | MsgSaveFailed
  | MsgTranslateFailed
  | MsgWaiting (seconds : N)
  | MsgSummary (total successful : nat)
  | MsgScanning
  | MsgNothingFound
  | MsgReport (archives : nat)
  | MsgReportSaved (output_file : pystr).

Inductive event : Type :=
  | Print (m : message)
  | Request (prompt : pystr)
  | Sleep (seconds : N).

Record world : Type := World {
  fs : fsys;
  out : list event
}.

Definition emit (e : event) (w : world) : world :=
  {| fs := fs w; out := out w ++ [e] |}.

Definition print (m : message) (w : world) : world := emit (Print m) w.

(** [zipfile.ZipFile(path, 'r')] followed by [.filelist]. *)
Definition open_zip_read (path : pystr) (w : world)
  : outcome (list zip_member) :=
  match fs w !! path with
  | None => Raise FileNotFoundError
  | Some f =>
      match zip_dir f with
      | None => Raise BadZipFile
      | Some ms => Ret ms
      end
  end.

(** ** [tranlator.py]: the discovery-only scan *)

Module Tranlator.

(** The dictionary appended to [language_files]. *)
Record lang_file : Type := LangFile {
  path : pystr;
  size : N;
  mod_id : pystr;
  lang_code : pystr
}.

Section Scan.

Context {F : Type}.
(** [json.loads] *)
Variable json_loads : pystr → outcome (json F).

(** The body of the inner [try]: read, decode, parse, build the
    dictionary. *)
Definition check_member (m : zip_member) : outcome lang_file :=
  let* raw := payload m in
  let* content := Utf8.decode raw in
  let* _ := json_loads content in
  Ret {| path := filename m;
         size := file_size m;
         mod_id := extract_mod_id (filename m);
         lang_code := extract_lang_code (filename m) |}.

(** [except (UnicodeDecodeError, json.JSONDecodeError): continue] *)
Definition skipped (e : exn) : bool :=
  match e with
  | UnicodeDecodeError | JSONDecodeError => true
  | _ => false
  end.

(** The [for file_info in jar.filelist] loop: the entries appended to
    [language_files], and the exception that ended the loop early, if
    any. *)
Fixpoint scan_members (ms : list zip_member)
  : list lang_file * option exn :=
  match ms with
  | [] => ([], None)
  | m :: ms' =>
      if Re.lang_pattern_any (filename m) then
        match check_member m with
        | Ret lf =>
            let '(found, stop) := scan_members ms' in (lf :: found, stop)
        | Raise e =>
            if skipped e then scan_members ms' else ([], Some e)
        end
      else scan_members ms'
  end.

(** The two handlers of the outer [try]. *)
Definition report (jar_path : pystr) (e : exn) (w : world) : world :=
  match e with
  | BadZipFile => print (MsgNotAJar jar_path) w
  | _ => print (MsgJarError jar_path e) w
  end.

Definition find_language_files_in_jar (jar_path : pystr) (w : world)
  : list lang_file * world :=
  match open_zip_read jar_path w with
  | Raise e => ([], report jar_path e w)
  | Ret ms =>
      match scan_members ms with
      | (found, None) => (found, w)
      | (found, Some e) => (found, report jar_path e w)
      end
  end.

(** The detail lines printed for each entry of an archive. *)
Definition print_details (l : list lang_file) (w : world) : world :=
  fold_left
    (λ w lf, print (MsgDetail (mod_id lf) (lang_code lf) (path lf) (size lf)) w)
    l w.

(** The [for jar_file in jar_files] loop of [scan_directory_for_mods];
    [all_results] is a dictionary keyed by the archive path. *)
Fixpoint scan_jars (jar_files : list pystr)
    (all_results : gmap pystr (list lang_file)) (w : world)
  : gmap pystr (list lang_file) * world :=
  match jar_files with
  | [] => (all_results, w)
  | jar_file :: rest =>
      let w := print (MsgProcessing jar_file) w in
      let '(language_files, w) := find_language_files_in_jar jar_file w in
      match language_files with
      | _ :: _ =>
          let w := print (MsgFound (length language_files)) w in
          let w := print_details language_files w in
          scan_jars rest (<[jar_file := language_files]> all_results) w
      | [] =>
          scan_jars rest all_results (print MsgNoneFound w)
      end
  end.

(** [scan_directory_for_mods].  [glob] is what the environment answers
    for the directory: [None] when it does not exist, otherwise the
    paths [directory.glob("*.jar")] lists. *)
Definition scan_directory_for_mods (glob : option (list pystr))
    (w : world) : gmap pystr (list lang_file) * world :=
  match glob with
  | None => (∅, print MsgNoDirectory w)
  | Some [] => (∅, print MsgNoJars w)
  | Some jar_files =>
      scan_jars jar_files ∅ (print (MsgJarCount (length jar_files)) w)
  end.

(** [json.dump(results, f, ensure_ascii=False, indent=2)] for the
    report is a parameter as well. *)
Variable dump_report : gmap pystr (list lang_file) → bytes.

Definition output_file : pystr := str "mod_language_scan_result.json".

(** [answer.strip().lower() == 'y']: the strings whose lower-casing is
    [y] are [y] and [Y]. *)
Definition says_yes (answer : pystr) : bool :=
  pystr_eqb (Py.strip answer) (str "y")
  || pystr_eqb (Py.strip answer) (str "Y").

(** [main] after the directory prompt.  [answer] is what the user
    types at the confirmation prompt, asked only when something was
    found.  [generate_report] prints a summary of [results]; its
    per-archive lines are not part of the trace. *)
Definition main (glob : option (list pystr)) (answer : pystr)
    (w : world) : world :=
  let w := print MsgScanning w in
  let '(results, w) := scan_directory_for_mods glob w in
  if bool_decide (results = ∅) then print MsgNothingFound w
  else
    let w := print (MsgReport (base.size results)) w in
    if says_yes answer
    then
      print (MsgReportSaved output_file)
        {| fs := <[output_file :=
                     {| lead := dump_report results; zip_dir := None |}]>
                 (fs w);
           out := out w |}
    else w.

End Scan.

End Tranlator.

(** ** [translator_advance.py]: the translating pipeline *)

Module TranslatorAdvance.

(** The dictionary appended to [language_files]. *)
Record lang_file (F : Type) : Type := LangFile {
  path : pystr;
  content : json F;
  mod_id : pystr;
  lang_code : pystr
}.
Arguments LangFile {F} _ _ _ _.
Arguments path {F} _.
Arguments content {F} _.
Arguments mod_id {F} _.
Arguments lang_code {F} _.

(** The attributes [__init__] sets; the client is the parameter
    [gemini] of the environment below. *)
Record ModTranslator : Type := {
  api_key : pystr;
  translation_delay : N
}.

Definition init (gemini_api_key : pystr) : ModTranslator :=
  {| api_key := gemini_api_key; translation_delay := 1 |}.

(** The places of [save_translated_json_to_jar] at which the operating
    system can refuse, in program order. *)
Inductive step : Type :=
  | MkTemp | CopyToTemp | OpenAppend | WriteEntry | CloseZip
  | CopyBackup | MoveBack | Cleanup.

(** A step that fails: the exception it raised, and what it left at its
    destination in the file system.  [shutil.copy2] opens its destination
    for writing before it copies, and [shutil.move] falls back on it when
    the rename fails, so a copy that fails part-way leaves a file there: a
    truncated one, or a complete one when only the metadata or the removal
    of the source failed.  [None]: the step failed before it wrote.  The
    destination of the steps other than [CopyBackup] and [MoveBack] is in
    the temporary directory. *)
Record failure : Type := Failure {
  raised : exn;
  left_behind : option file_data
}.

(** What the environment does at each place: let it pass, or fail. *)
Definition faults : Type := step → option failure.

(** The step, if it fails, fails before it has written. *)
Definition fails_clean (flt : faults) (s : step) : Prop :=
  ∀ f, flt s = Some f → left_behind f = None.

Definition no_faults : faults := λ _, None.

(** The environment of a run, indexed by the running count
    [total_files] of the entry being processed: the answer of
    [client.models.generate_content] to a prompt ([response.text], which
    may be [None]), and the faults met while saving. *)
Record env : Type := Env {
  gemini : nat → pystr → outcome (option pystr);
  save_faults : nat → faults
}.

(** *** Computations on the world that may raise *)

Definition io (A : Type) : Type := world → outcome A * world.

#[global] Instance io_ret : MRet io := λ A a w, (Ret a, w).

#[global] Instance io_bind : MBind io :=
  λ A B k c w, match c w with
               | (Ret a, w') => k a w'
               | (Raise e, w') => (Raise e, w')
               end.

Definition lift {A} (x : outcome A) : io A := λ w, (x, w).

Definition fault (flt : faults) (s : step) : io unit :=
  lift (match flt s with Some f => Raise (raised f) | None => Ret tt end).

(** A step that writes the file [p] of the file system. *)
Definition fault_at (flt : faults) (s : step) (p : pystr) : io unit :=
  λ w, match flt s with
       | Some f =>
           (Raise (raised f),
            match left_behind f with
            | Some d => {| fs := <[p := d]> (fs w); out := out w |}
            | None => w
            end)
       | None => (Ret tt, w)
       end.

Definition say (m : message) : io unit := λ w, (Ret tt, print m w).

Definition read_file (p : pystr) : io file_data :=
  λ w, match fs w !! p with
       | Some f => (Ret f, w)
       | None => (Raise FileNotFoundError, w)
       end.

Definition write_file (p : pystr) (f : file_data) : io unit :=
  λ w, (Ret tt, {| fs := <[p := f]> (fs w); out := out w |}).

(** [os.path.exists] *)
Definition path_exists (p : pystr) : io bool :=
  λ w, (Ret (bool_decide (is_Some (fs w !! p))), w).

(** [ZipFile(f, 'a').writestr(name, data)]: the member is added after
    the members the file has; a file without a ZIP directory gets one. *)
Definition zip_append (f : file_data) (name : pystr) (data : bytes)
  : file_data :=
  {| lead := lead f;
     zip_dir := Some (default [] (zip_dir f)
                      ++ [{| filename := name;
                             file_size := N.of_nat (length data);
                             payload := Ret data |}]) |}.

Definition backup_path_of (jar_path : pystr) : pystr :=
  jar_path ++ str ".backup".

Section Translator.

Context {F : Type}.
(** [bool(x)] of a float *)
Variable float_truthy : F → bool.
(** [json.loads] *)
Variable json_loads : pystr → outcome (json F).
(** [json.dumps(_, ensure_ascii=False, indent=2)] *)
Variable json_dumps : json F → outcome pystr.
(** The fixed text of the prompt that precedes the serialized
    mapping. *)
Variable prompt_header : pystr.

(** *** [find_language_files_in_jar] *)

Definition check_member (m : zip_member) : outcome (lang_file F) :=
  let* raw := payload m in
  let* text := Utf8.decode raw in
  let* json_data := json_loads text in
  Ret {| path := filename m;
         content := json_data;
         mod_id := extract_mod_id (filename m);
         lang_code := extract_lang_code (filename m) |}.

(** [except (UnicodeDecodeError, json.JSONDecodeError): continue] *)
Definition skipped (e : exn) : bool :=
  match e with
  | UnicodeDecodeError | JSONDecodeError => true
  | _ => false
  end.

(** The [for file_info in jar.filelist] loop: the entries appended to
    [language_files], and the exception that ended the loop early, if
    any. *)
Fixpoint scan_members (ms : list zip_member)
  : list (lang_file F) * option exn :=
  match ms with
  | [] => ([], None)
  | m :: ms' =>
      if Re.lang_pattern_en_us (filename m) then
        match check_member m with
        | Ret lf =>
            let '(found, stop) := scan_members ms' in (lf :: found, stop)
        | Raise e =>
            if skipped e then scan_members ms' else ([], Some e)
        end
      else scan_members ms'
  end.

Definition report (jar_path : pystr) (e : exn) (w : world) : world :=
  match e with
  | BadZipFile => print (MsgNotAJar jar_path) w
  | _ => print (MsgJarError jar_path e) w
  end.

Definition find_language_files_in_jar (jar_path : pystr) (w : world)
  : list (lang_file F) * world :=
  match open_zip_read jar_path w with
  | Raise e => ([], report jar_path e w)
  | Ret ms =>
      match scan_members ms with
      | (found, None) => (found, w)
      | (found, Some e) => (found, report jar_path e w)
      end
  end.

(** *** [translate_json_with_gemini] *)

(** Lines 114-123: the text handed to [json.loads]. *)
Definition extract_payload (translated_text : pystr) : pystr :=
  if Py.contains (str "```json") translated_text then
    match Py.find (str "```json") translated_text with
    | Some i =>
        let start := (i + 7)%nat in
        match Py.find_from (str "```") translated_text start with
        | Some e => Py.strip (Py.slice translated_text start e)
        | None => translated_text
        end
    | None => translated_text
    end
  else if Py.contains (str "```") translated_text then
    match Py.find (str "```") translated_text with
    | Some i =>
        let start := (i + 3)%nat in
        match Py.find_from (str "```") translated_text start with
        | Some e => Py.strip (Py.slice translated_text start e)
        | None => translated_text
        end
    | None => translated_text
    end
  else translated_text.

(** [if response.text:] *)
Definition response_text (r : option pystr) : option pystr :=
  match r with
  | Some (c :: t) => Some (c :: t)
  | _ => None
  end.

(** The result is the Python value returned: [JNull] is [None].  The
    parameter [source_lang], which the function never reads, is left
    out. *)
Definition translate_json_with_gemini
    (generate_content : pystr → outcome (option pystr))
    (json_data : json F) (w : world) : json F * world :=
  match json_dumps json_data with
  | Raise e => (JNull, print (MsgTranslateError e) w)
  | Ret json_str =>
      let prompt := prompt_header ++ json_str in
      let w := emit (Request prompt) w in
      match generate_content prompt with
      | Raise e => (JNull, print (MsgTranslateError e) w)
      | Ret response =>
          match response_text response with
          | Some translated_text =>
              let translated_text := extract_payload translated_text in
              match json_loads translated_text with
              | Ret translated_json => (translated_json, w)
              | Raise JSONDecodeError =>
                  (JNull,
                   print (MsgResponseWas (take 500 translated_text))
                     (print (MsgParseError JSONDecodeError) w))
              | Raise e => (JNull, print (MsgTranslateError e) w)
              end
          | None => (JNull, print MsgEmptyResponse w)
          end
      end
  end.

(** *** [save_translated_json_to_jar] *)

(** The body of the [try].  The temporary copy lives in a directory of
    its own and is a local value here. *)
Definition save_steps (flt : faults) (jar_path ja_jp_path : pystr)
    (translated_content : json F) : io unit :=
  fault flt MkTemp;;
  temp_jar ← read_file jar_path;
  fault flt CopyToTemp;;
  fault flt OpenAppend;;
  translated_json_str ← lift (json_dumps translated_content);
  data ← lift (Utf8.encode translated_json_str);
  fault flt WriteEntry;;
  let temp_jar := zip_append temp_jar ja_jp_path data in
  fault flt CloseZip;;
  let backup_path := backup_path_of jar_path in
  present ← path_exists backup_path;
  (if present : bool then mret tt
   else
     original ← read_file jar_path;
     fault_at flt CopyBackup backup_path;;
     write_file backup_path original;;
     say (MsgBackupCreated backup_path));;
  fault_at flt MoveBack jar_path;;
  write_file jar_path temp_jar;;
  fault flt Cleanup;;
  mret tt.

Definition save_translated_json_to_jar (flt : faults)
    (jar_path : pystr) (original_lang_file : lang_file F)
    (translated_content : json F) (w : world) : bool * world :=
  let ja_jp_path := ja_jp_path_of (path original_lang_file) in
  match save_steps flt jar_path ja_jp_path translated_content w with
  | (Ret _, w) => (true, print (MsgAddedToJar ja_jp_path) w)
  | (Raise e, w) => (false, print (MsgJarUpdateError e) w)
  end.

(** *** [translate_mod_files] *)

(** [sum(len(self.find_language_files_in_jar(str(jf)))
         for jf in jar_files)] *)
Fixpoint count_language_files (jar_files : list pystr) (w : world)
  : nat * world :=
  match jar_files with
  | [] => (0%nat, w)
  | jf :: rest =>
      let '(l, w) := find_language_files_in_jar jf w in
      let '(n, w) := count_language_files rest w in
      ((length l + n)%nat, w)
  end.

(** The counters of the loop and the world. *)
Record progress : Type := Progress {
  total_files : nat;
  successful_translations : nat;
  now : world
}.

(** The body of [for lang_file in language_files]. *)
Definition translate_lang_file (self : ModTranslator) (E : env)
    (jar_files : list pystr) (jar_file : pystr)
    (st : progress) (lang_file : lang_file F) : progress :=
  let total := S (total_files st) in
  let w := print (MsgTranslating (path lang_file)) (now st) in
  let '(translated_content, w) :=
    translate_json_with_gemini (gemini E total) (content lang_file) w in
  let '(successful, w) :=
    if truthy float_truthy translated_content then
      let '(saved, w) :=
        save_translated_json_to_jar (save_faults E total)
          jar_file lang_file translated_content w in
      if saved then (S (successful_translations st), print MsgDone w)
      else (successful_translations st, print MsgSaveFailed w)
    else (successful_translations st, print MsgTranslateFailed w) in
  let '(located, w) := count_language_files jar_files w in
  let w :=
    if (total <? located)%nat
    then emit (Sleep (translation_delay self))
           (print (MsgWaiting (translation_delay self)) w)
    else w in
  {| total_files := total;
     successful_translations := successful;
     now := w |}.

(** The body of [for jar_file in jar_files], over the archives still
    to visit; [jar_files] is the whole list. *)
Fixpoint translate_jars (self : ModTranslator) (E : env)
    (jar_files todo : list pystr) (st : progress) : progress :=
  match todo with
  | [] => st
  | jar_file :: rest =>
      let w := print (MsgProcessing jar_file) (now st) in
      let '(language_files, w) := find_language_files_in_jar jar_file w in
      match language_files with
      | [] =>
          translate_jars self E jar_files rest
            {| total_files := total_files st;
               successful_translations := successful_translations st;
               now := print MsgNoneFound w |}
      | _ :: _ =>
          let w := print (MsgFound (length language_files)) w in
          translate_jars self E jar_files rest
            (fold_left (translate_lang_file self E jar_files jar_file)
               language_files
               {| total_files := total_files st;
                  successful_translations := successful_translations st;
                  now := w |})
      end
  end.

(** [translate_mod_files].  [glob] is [None] when the directory does
    not exist, otherwise the paths [directory.glob("*.jar")] lists. *)
Definition translate_mod_files (self : ModTranslator) (E : env)
    (glob : option (list pystr)) (w : world) : world :=
  match glob with
  | None => print MsgNoDirectory w
  | Some [] => print MsgNoJars w
  | Some jar_files =>
      let w := print MsgRule (print (MsgJarCount (length jar_files)) w) in
      let st :=
        translate_jars self E jar_files jar_files
          {| total_files := 0; successful_translations := 0; now := w |} in
      print (MsgSummary (total_files st) (successful_translations st))
        (print MsgRule (now st))
  end.

End Translator.

End TranslatorAdvance.

(** ** A reference codec for the float-free fragment of JSON

    [Ref.loads] and [Ref.dumps] follow [json.loads] and
    [json.dumps(_, ensure_ascii=False, indent=2)] on the documents of a
    fragment, and serve for the closed examples only; the theorems are
    about every [json.loads] and [json.dumps].  Outside the fragment
    are:
    - floating-point numbers: a document with a fraction, an exponent,
      [NaN] or [Infinity], which [json.loads] turns into a [float], is
      refused here;
    - nesting beyond the recursion limit of the interpreter, at which
      [json.loads] and [json.dumps] raise [RecursionError]: the limit
      depends on the depth of the call, and no nesting is refused
      here. *)

Module Ref.

Definition value : Type := json Empty_set.

Definition float_truthy (f : Empty_set) : bool := match f with end.

Definition is_ws (c : N) : bool :=
  (c =? 32) || (c =? 9) || (c =? 10) || (c =? 13).

Fixpoint skip_ws (s : pystr) : pystr :=
  match s with
  | c :: s' => if is_ws c then skip_ws s' else s
  | [] => []
  end.

Definition is_digit (c : N) : bool := (48 <=? c) && (c <=? 57).

Definition hex_digit (c : N) : option N :=
  if is_digit c then Some (c - 48)
  else if (97 <=? c) && (c <=? 102) then Some (c - 87)
  else if (65 <=? c) && (c <=? 70) then Some (c - 55)
  else None.

Definition hex4 (a b c d : N) : option N :=
  match hex_digit a, hex_digit b, hex_digit c, hex_digit d with
  | Some x, Some y, Some z, Some t => Some (((x * 16 + y) * 16 + z) * 16 + t)
  | _, _, _, _ => None
  end.

Definition simple_escape (c : N) : option N :=
  if c =? 34 then Some 34 else if c =? 92 then Some 92
  else if c =? 47 then Some 47 else if c =? 98 then Some 8
  else if c =? 102 then Some 12 else if c =? 110 then Some 10
  else if c =? 114 then Some 13 else if c =? 116 then Some 9
  else None.

Definition is_high (c : N) : bool := (55296 <=? c) && (c <=? 56319).
Definition is_low (c : N) : bool := (56320 <=? c) && (c <=? 57343).

(** The characters of a string literal after its opening quote, and
    what follows the closing quote. *)
Fixpoint scan_string (s : pystr) : option (pystr * pystr) :=
  match s with
  | [] => None
  | 34 :: rest => Some ([], rest)
  | 92 :: 117 :: a :: b :: c :: d :: rest =>
      match hex4 a b c d with
      | None => None
      | Some hi =>
          match rest with
          | 92 :: 117 :: a' :: b' :: c' :: d' :: rest' =>
              match hex4 a' b' c' d' with
              | Some lo =>
                  if is_high hi && is_low lo then
                    '(t, r) ← scan_string rest';
                    Some ((65536 + (hi - 55296) * 1024 + (lo - 56320)) :: t, r)
                  else
                    '(t, r) ← scan_string rest; Some (hi :: t, r)
              | None => '(t, r) ← scan_string rest; Some (hi :: t, r)
              end
          | _ => '(t, r) ← scan_string rest; Some (hi :: t, r)
          end
      end
  | 92 :: e :: rest =>
      match simple_escape e with
      | Some c => '(t, r) ← scan_string rest; Some (c :: t, r)
      | None => None
      end
  | c :: rest =>
      if (c <? 32) || (c =? 92) then None
      else '(t, r) ← scan_string rest; Some (c :: t, r)
  end.

(** Syntax errors are [json.JSONDecodeError]. *)
Definition syntax {A} (o : option A) : outcome A :=
  match o with
  | Some a => Ret a
  | None => Raise JSONDecodeError
  end.

#[local] Instance outcome_ret : MRet outcome := λ A a, Ret a.
#[local] Instance outcome_bind : MBind outcome := λ A B k c, bind c k.

(** [int] refuses a literal of more than 4300 digits, and [repr] an
    integer of as many, with a [ValueError]
    ([sys.get_int_max_str_digits()], as the interpreter sets it). *)
Definition max_str_digits : nat := 4300.

Definition int_too_long : exn := OtherException "ValueError".

(** The digits at the head of [s]: their value, how many they are, and
    what follows them. *)
Fixpoint scan_digits (s : pystr) (acc : Z) (n : nat) : Z * nat * pystr :=
  match s with
  | c :: s' =>
      if is_digit c
      then scan_digits s' (acc * 10 + Z.of_N (c - 48))%Z (S n)
      else (acc, n, s)
  | [] => (acc, n, [])
  end.

(** What makes a number a [float]: a fraction [.d] or an exponent
    [e[+-]d] after its integer part. *)
Definition float_tail (s : pystr) : bool :=
  match s with
  | 46 :: d :: _ => is_digit d
  | e :: t =>
      ((e =? 101) || (e =? 69))
      && match t with
         | d :: t' =>
             is_digit d
             || (((d =? 43) || (d =? 45))
                 && match t' with d' :: _ => is_digit d' | [] => false end)
         | [] => false
         end
  | [] => false
  end.

(** An integer literal; a literal continued by a fraction or an
    exponent is not an integer and is refused. *)
Definition scan_int (s : pystr) : outcome (Z * pystr) :=
  let '(neg, s) :=
    match s with 45 :: s' => (true, s') | _ => (false, s) end in
  '(z, n, rest) ←
    match s with
    | 48 :: s' => Ret (0%Z, 1%nat, s')
    | c :: _ =>
        if is_digit c then Ret (scan_digits s 0 0)
        else Raise JSONDecodeError
    | [] => Raise JSONDecodeError
    end;
  if float_tail rest then Raise JSONDecodeError
  else if (max_str_digits <? n)%nat then Raise int_too_long
  else Ret (if neg : bool then (- z)%Z else z, rest).

(** [d[k] = v] on a dictionary in insertion order. *)
Fixpoint dict_set (d : list (pystr * value)) (k : pystr) (v : value)
  : list (pystr * value) :=
  match d with
  | [] => [(k, v)]
  | (k', v') :: d' =>
      if pystr_eqb k k' then (k, v) :: d' else (k', v') :: dict_set d' k v
  end.

(** A value at the head of [s] (white space already skipped), and what
    follows it; every level of nesting uses one unit of [fuel]. *)
Fixpoint scan_value (fuel : nat) (s : pystr) : outcome (value * pystr) :=
  match fuel with
  | O => Raise JSONDecodeError
  | S fuel =>
      match s with
      | 34 :: rest => '(t, r) ← syntax (scan_string rest); Ret (JStr t, r)
      | 123 :: rest =>
          match skip_ws rest with
          | 125 :: r => Ret (JDict [], r)
          | rest => '(d, r) ← scan_members fuel rest []; Ret (JDict d, r)
          end
      | 91 :: rest =>
          match skip_ws rest with
          | 93 :: r => Ret (JList [], r)
          | rest => '(l, r) ← scan_items fuel rest; Ret (JList l, r)
          end
      | _ =>
          match Py.strip_prefix (str "null") s,
                Py.strip_prefix (str "true") s,
                Py.strip_prefix (str "false") s with
          | Some r, _, _ => Ret (JNull, r)
          | _, Some r, _ => Ret (JBool true, r)
          | _, _, Some r => Ret (JBool false, r)
          | _, _, _ => '(z, r) ← scan_int s; Ret (JInt z, r)
          end
      end
  end
with scan_items (fuel : nat) (s : pystr) : outcome (list value * pystr) :=
  match fuel with
  | O => Raise JSONDecodeError
  | S fuel =>
      '(v, r) ← scan_value fuel s;
      match skip_ws r with
      | 93 :: r' => Ret ([v], r')
      | 44 :: r' =>
          '(l, r'') ← scan_items fuel (skip_ws r'); Ret (v :: l, r'')
      | _ => Raise JSONDecodeError
      end
  end
with scan_members (fuel : nat) (s : pystr) (d : list (pystr * value))
  : outcome (list (pystr * value) * pystr) :=
  match fuel with
  | O => Raise JSONDecodeError
  | S fuel =>
      match s with
      | 34 :: rest =>
          '(k, r) ← syntax (scan_string rest);
          match skip_ws r with
          | 58 :: r' =>
              '(v, r'') ← scan_value fuel (skip_ws r');
              let d := dict_set d k v in
              match skip_ws r'' with
              | 125 :: r3 => Ret (d, r3)
              | 44 :: r3 => scan_members fuel (skip_ws r3) d
              | _ => Raise JSONDecodeError
              end
          | _ => Raise JSONDecodeError
          end
      | _ => Raise JSONDecodeError
      end
  end.

(** [json.loads] *)
Definition loads (s : pystr) : outcome value :=
  '(v, rest) ← scan_value (S (length s)) (skip_ws s);
  match skip_ws rest with
  | [] => Ret v
  | _ => Raise JSONDecodeError
  end.

Definition hex_char (n : N) : N := if n <? 10 then 48 + n else 87 + n.

Definition escape_char (c : N) : pystr :=
  if c =? 34 then [92; 34] else if c =? 92 then [92; 92]
  else if c =? 10 then str "\n" else if c =? 13 then str "\r"
  else if c =? 9 then str "\t" else if c =? 8 then str "\b"
  else if c =? 12 then str "\f"
  else if c <? 32 then str "\u00" ++ [hex_char (c / 16); hex_char (c mod 16)]
  else [c].

Definition quote (s : pystr) : pystr :=
  [34] ++ concat (map escape_char s) ++ [34].

Definition decimal (z : Z) : pystr :=
  str (NilEmpty.string_of_int (Z.to_int z)).

Definition newline_indent (level : nat) : pystr :=
  10 :: repeat 32 (2 * level).

Fixpoint dump (level : nat) (v : value) : pystr :=
  match v with
  | JNull => str "null"
  | JBool true => str "true"
  | JBool false => str "false"
  | JInt z => decimal z
  | JFloat f => match f with end
  | JStr s => quote s
  | JList [] => str "[]"
  | JList (x :: l) =>
      str "[" ++ newline_indent (S level) ++ dump (S level) x
      ++ (fix items (l : list value) : pystr :=
            match l with
            | [] => []
            | y :: l' =>
                str "," ++ newline_indent (S level) ++ dump (S level) y
                ++ items l'
            end) l
      ++ newline_indent level ++ str "]"
  | JDict [] => str "{}"
  | JDict ((k, x) :: d) =>
      str "{" ++ newline_indent (S level) ++ quote k ++ str ": "
      ++ dump (S level) x
      ++ (fix items (d : list (pystr * value)) : pystr :=
            match d with
            | [] => []
            | (k', y) :: d' =>
                str "," ++ newline_indent (S level) ++ quote k' ++ str ": "
                ++ dump (S level) y ++ items d'
            end) d
      ++ newline_indent level ++ str "}"
  end.

(** No integer of the value has more than [max_str_digits] digits. *)
Definition int_fits (z : Z) : bool :=
  (length (decimal (Z.abs z)) <=? max_str_digits)%nat.

Fixpoint ints_fit (v : value) : bool :=
  match v with
  | JInt z => int_fits z
  | JList l =>
      (fix all (l : list value) : bool :=
         match l with
         | [] => true
         | x :: l' => ints_fit x && all l'
         end) l
  | JDict d =>
      (fix all (d : list (pystr * value)) : bool :=
         match d with
         | [] => true
         | (_, x) :: d' => ints_fit x && all d'
         end) d
  | _ => true
  end.

(** [json.dumps(_, ensure_ascii=False, indent=2)] *)
Definition dumps (v : value) : outcome pystr :=
  if ints_fit v then Ret (dump 0 v) else Raise int_too_long.

End Ref.

(** ** The specification's own notions *)

Module Spec.

(** The end of the path, and nothing after it. *)
Definition at_end (s : pystr) : bool :=
  match s with [] => true | _ => false end.

(** The path grammar [(assets|data)/<segment>/lang/<segment>.json],
    case-insensitive, on the whole path. *)
Definition lang_path (p : pystr) : bool :=
  Re.alt (Re.ilit (str "assets")) (Re.ilit (str "data"))
    (Re.ilit (str "/")
       (Re.not_slash_plus
          (Re.ilit (str "/lang/")
             (Re.not_slash_plus
                (Re.ilit (str ".json") at_end)))))
    p.

(** The grammar restricted to the file name [en_us.json]. *)
Definition lang_path_en_us (p : pystr) : bool :=
  Re.alt (Re.ilit (str "assets")) (Re.ilit (str "data"))
    (Re.ilit (str "/")
       (Re.not_slash_plus
          (Re.ilit (str "/lang/en_us.json") at_end)))
    p.

(** [k] accepts what [k_end] accepts, with or without one final line
    feed. *)
Definition lf_tolerant (k k_end : pystr → bool) : Prop :=
  ∀ s, k s = true
       ↔ k_end s = true ∨ ∃ s', s = s' ++ [10] ∧ k_end s' = true.

(** The content of the block that starts at [start], just after an
    opening fence: up to the next fence, without surrounding white
    space; the whole text when no fence closes the block. *)
Definition block_from (t : pystr) (start : nat) : pystr :=
  match Py.find_from (str "```") t start with
  | Some e => Py.strip (Py.slice t start e)
  | None => t
  end.

(** "If the text contains a fenced code block, use the first fenced
    block's content; otherwise use the whole text."  The language tag
    [json] of the opening fence is not part of the content. *)
Definition first_fence_payload (t : pystr) : pystr :=
  match Py.find (str "```") t with
  | Some i =>
      if Py.startswith (drop i t) (str "```json")
      then block_from t (i + 7)
      else block_from t (i + 3)
  | None => t
  end.

(** "The returned mapping's key set is identical to the source
    mapping's key set." *)
Definition same_key_set {F} (source translated : json F) : bool :=
  match keys source, keys translated with
  | Some ks, Some kt =>
      forallb (λ k, bool_decide (k ∈ kt)) ks
      && forallb (λ k, bool_decide (k ∈ ks)) kt
  | _, _ => false
  end.

(** Pacing of the requests in a trace.  [Rested]: a delay has been
    taken since the last request; [Tired]: a request has been sent and
    no delay taken since; [Broken]: a request was sent while [Tired], or
    a delay of another length than [d] was taken. *)
Inductive phase : Type := Rested | Tired | Broken.

Definition pace (d : N) (ph : phase) (e : event) : phase :=
  match e, ph with
  | _, Broken => Broken
  | Print _, _ => ph
  | Request _, Rested => Tired
  | Request _, Tired => Broken
  | Sleep s, _ => if s =? d then Rested else Broken
  end.

Definition paced (d : N) (start : phase) (tr : list event) : phase :=
  fold_left (pace d) tr start.

(** The requests and the delays of a trace, without what was printed. *)
Definition calls (tr : list event) : list event :=
  List.filter (λ e, match e with Print _ => false | _ => true end) tr.


(** The delay is enforced before each request but the first. *)
Definition delay_between_requests (d : N) (tr : list event) : bool :=
  match paced d Rested tr with Broken => false | _ => true end.

End Spec.

(** ** Notions used in the statements about the archive mutator *)

Module Mutator.

Import TranslatorAdvance.

(** The file system once the backup step has passed: the backup is a
    copy of [original] if there was none, and is left alone otherwise. *)
Definition with_backup (jar_path : pystr) (original : file_data)
    (files : fsys) : fsys :=
  match files !! backup_path_of jar_path with
  | None => <[backup_path_of jar_path := original]> files
  | Some _ => files
  end.

(** The file system with what a failed step left at [p], if
    anything. *)
Definition with_debris (p : pystr) (x : failure) (files : fsys) : fsys :=
  match left_behind x with
  | Some d => <[p := d]> files
  | None => files
  end.

Section Sequences.

Context {F : Type}.
Variable json_dumps : json F → outcome pystr.

(** [mutations jar n w w']: from [w] to [w'] the archive [jar] went
    through [n] successful calls of [save_translated_json_to_jar], in
    sequence; between them only the output trace changed. *)
Inductive mutations (jar_path : pystr) : nat → world → world → Prop :=
  | mutations_done w w' :
      fs w' = fs w → mutations jar_path 0 w w'
  | mutations_idle n w w1 w2 :
      fs w1 = fs w →
      mutations jar_path n w1 w2 →
      mutations jar_path n w w2
  | mutations_save n w w1 w2 flt lf translated :
      save_translated_json_to_jar json_dumps flt jar_path lf translated w
        = (true, w1) →
      mutations jar_path n w1 w2 →
      mutations jar_path (S n) w w2.

End Sequences.

Section Located.

Context {F : Type}.
Variable json_loads : pystr → outcome (json F).

(** The number of entries the translating locator finds in an archive
    of a file system, and in a list of archives. *)
Definition located_in (files : fsys) (jar_path : pystr) : nat :=
  length (find_language_files_in_jar json_loads jar_path
            {| fs := files; out := [] |}).1.

Definition located_total (files : fsys) (jar_files : list pystr) : nat :=
  sum_list_with (located_in files) jar_files.

End Located.

End Mutator.

(** ** Concrete archives, replies and environments *)

Module Examples.

Import TranslatorAdvance.

(** A literal in which ['] stands for the double quote. *)
Definition js (s : string) : pystr :=
  map (λ c, if c =? 39 then 34 else c) (str s).

Definition utf8 (s : pystr) : bytes :=
  match Utf8.encode s with Ret b => b | Raise _ => [] end.

Definition member (name : pystr) (text : pystr) : zip_member :=
  {| filename := name;
     file_size := N.of_nat (length (utf8 text));
     payload := Ret (utf8 text) |}.

(** A member whose data cannot be read (it is encrypted). *)
Definition locked_member (name : pystr) : zip_member :=
  {| filename := name;
     file_size := 16;
     payload := Raise (OtherException "RuntimeError") |}.

Definition world_of (files : fsys) : world := {| fs := files; out := [] |}.

Definition jar_a : pystr := str "mods/a.jar".
Definition jar_b : pystr := str "mods/b.jar".
Definition en_us_m1 : pystr := str "assets/m1/lang/en_us.json".
Definition ja_jp_m1 : pystr := str "assets/m1/lang/ja_jp.json".

Definition sword_axe : pystr := js "{'item.sword': 'Sword', 'item.axe': 'Axe'}".
Definition sword : pystr := js "{'item.sword': 'Sword'}".

(** ["{"item.sword": "剣"}"] *)
Definition ken : pystr := js "{'item.sword': '" ++ [21091] ++ js "'}".

Definition self : ModTranslator := init (str "key").
Definition header : pystr := str "Translate: ".

Definition fixed_reply (text : pystr) : nat → pystr → outcome (option pystr) :=
  λ _ _, Ret (Some text).

Definition calm : nat → faults := λ _, no_faults.

Definition run (E : env) (jars : list pystr) (files : fsys) : world :=
  translate_mod_files Ref.float_truthy Ref.loads Ref.dumps header
    self E (Some jars) (world_of files).

(** One archive with a two-key mapping; the service answers with one of
    the two keys only. *)
Definition fs_two_keys : fsys :=
  {[ jar_a := archive [member en_us_m1 sword_axe] ]}.
Definition env_one_key : env :=
  {| gemini := fixed_reply (js "```json" ++ [10] ++ ken ++ [10] ++ js "```");
     save_faults := calm |}.

(** Scenario 1 of the specification. *)
Definition fs_sword : fsys :=
  {[ jar_a := archive [member en_us_m1 sword] ]}.
Definition env_ken : env :=
  {| gemini := fixed_reply ken; save_faults := calm |}.
Definition lf_sword : lang_file Empty_set :=
  {| path := en_us_m1;
     content := JDict [(str "item.sword", JStr (str "Sword"))];
     mod_id := str "m1";
     lang_code := str "en_us" |}.
Definition v_ken : Ref.value := JDict [(str "item.sword", JStr [21091])].

(** The removal of the temporary directory fails. *)
Definition cleanup_fails : faults :=
  λ s, match s with
       | Cleanup =>
           Some {| raised := OtherException "PermissionError";
                   left_behind := None |}
       | _ => None
       end.

(** The copy to the temporary file fails. *)
Definition copy_fails : faults :=
  λ s, match s with
       | CopyToTemp =>
           Some {| raised := OtherException "OSError";
                   left_behind := None |}
       | _ => None
       end.

(** A file cut short before its ZIP directory. *)
Definition truncated : file_data := {| lead := []; zip_dir := None |}.

(** The move back fails part-way and leaves the archive truncated. *)
Definition move_breaks : faults :=
  λ s, match s with
       | MoveBack =>
           Some {| raised := OtherException "OSError";
                   left_behind := Some truncated |}
       | _ => None
       end.

(** The copy to the backup fails part-way and leaves it truncated. *)
Definition backup_breaks : faults :=
  λ s, match s with
       | CopyBackup =>
           Some {| raised := OtherException "OSError";
                   left_behind := Some truncated |}
       | _ => None
       end.

(** The first entry meets [flt], the others no fault. *)
Definition first_meets (flt : faults) : nat → faults :=
  λ n, match n with 1%nat => flt | _ => no_faults end.

Definition env_move_breaks : env :=
  {| gemini := fixed_reply ken; save_faults := first_meets move_breaks |}.
Definition env_backup_breaks : env :=
  {| gemini := fixed_reply ken; save_faults := first_meets backup_breaks |}.

(** A reply with an untagged block before a block tagged [json]. *)
Definition two_blocks : pystr :=
  js "```" ++ [10] ++ js "{'a': 1}" ++ [10] ++ js "```" ++ [10]
  ++ js "```json" ++ [10] ++ js "{'b': 2}" ++ [10] ++ js "```".

(** A reply with one tagged block. *)
Definition one_block : pystr :=
  js "Here you are:" ++ [10] ++ js "```json" ++ [10] ++ ken ++ [10]
  ++ js "```".

(** An archive whose second language entry cannot be read. *)
Definition fs_locked : fsys :=
  {[ jar_a := archive [member en_us_m1 sword;
                       locked_member (str "assets/m2/lang/en_us.json");
                       member (str "assets/m3/lang/en_us.json") sword] ]}.

(** One archive with the language files of two mods. *)
Definition fs_two_mods : fsys :=
  {[ jar_a := archive [member en_us_m1 sword;
                       member (str "assets/m2/lang/en_us.json") sword] ]}.

(** A file that is not an archive, next to a good archive. *)
Definition fs_corrupt : fsys :=
  {[ jar_a := {| lead := utf8 (str "not a zip"); zip_dir := None |};
     jar_b := archive [member en_us_m1 sword] ]}.

(** A member name that ends with a line feed. *)
Definition en_us_lf : pystr := str "assets/m1/lang/en_us.json" ++ [10].
Definition fs_newline : fsys :=
  {[ jar_a := archive [member en_us_lf sword] ]}.

(** Upper-case file name; a namespace that is itself [en_us.json]. *)
Definition en_us_upper : pystr := str "assets/foo/lang/EN_US.JSON".
Definition en_us_twice : pystr := str "assets/en_us.json/lang/en_us.json".

End Examples.
(** ** The shape of the paths the patterns accept *)

Module Shape.

(** [s] is the literal [lit], letter case apart. *)
Definition ieq (lit s : pystr) : Prop :=
  Forall2 (λ a b, Re.ichar a b = true) lit s.

(** A path segment: not empty, without a slash. *)
Definition segment (s : pystr) : Prop := s ≠ [] ∧ 47 ∉ s.

(** Nothing, or one line feed. *)
Definition line_end (s : pystr) : Prop := s = [] ∨ s = [10].

(** [p] is [root/namespace/lang/name.json] with these parts, letter
    case apart, with an optional line feed at the end. *)
Definition parts_any (p root ns lang name ext tail : pystr) : Prop :=
  p = root ++ [47] ++ ns ++ lang ++ name ++ ext ++ tail
  ∧ (ieq (str "assets") root ∨ ieq (str "data") root)
  ∧ segment ns
  ∧ ieq (str "/lang/") lang
  ∧ segment name
  ∧ ieq (str ".json") ext
  ∧ line_end tail.

(** [p] is [root/namespace/lang/en_us.json] with these parts, letter case
    apart, with an optional line feed at the end. *)
Definition parts_en_us (p root ns file tail : pystr) : Prop :=
  p = root ++ [47] ++ ns ++ file ++ tail
  ∧ (ieq (str "assets") root ∨ ieq (str "data") root)
  ∧ segment ns
  ∧ ieq (str "/lang/en_us.json") file
  ∧ line_end tail.

End Shape.

(** ** Notions used in the statements about whole runs *)

Module Runs.

Import TranslatorAdvance.


(** The prompts of the requests of a trace, in the order sent. *)
Definition requests (tr : list event) : list pystr :=
  omap (λ e, match e with Request p => Some p | _ => None end) tr.

(** No archive of the list has the backup path of another one, as when
    every name ends in [.jar]. *)
Definition no_clash (jar_files : list pystr) : Prop :=
  ∀ a b, a ∈ jar_files → b ∈ jar_files → b ≠ backup_path_of a.

(** No condition on the faults of a call. *)
Definition any_fault (flt : faults) : Prop := True.

Section Steps.

Context {F : Type}.
Variable json_loads : pystr → outcome (json F).
Variable json_dumps : json F → outcome pystr.
Variable prompt_header : pystr.

(** The prompt built from a mapping, if it can be serialized. *)
Definition prompt_of (json_data : json F) : list pystr :=
  match json_dumps json_data with
  | Ret json_str => [prompt_header ++ json_str]
  | Raise _ => []
  end.

(** The prompts of the reference entries of the archives of a file
    system, archive by archive, in member order. *)
Definition prompts_of (files : fsys) (jar_files : list pystr)
  : list pystr :=
  flat_map
    (λ jar, flat_map (λ lf, prompt_of (content lf))
              (find_language_files_in_jar json_loads jar
                 {| fs := files; out := [] |}).1)
    jar_files.

(** One call of the mutator on an archive of the list, with faults
    that satisfy [ok], whatever its arguments and its outcome. *)
Definition save_step (ok : faults → Prop) (jar_files : list pystr)
    (f f' : fsys) : Prop :=
  ∃ jar_path flt (lf : lang_file F) translated w,
    jar_path ∈ jar_files
    ∧ ok flt
    ∧ fs w = f
    ∧ fs (save_translated_json_to_jar json_dumps flt jar_path lf
            translated w).2 = f'.

(** A sequence of such calls. *)
Definition saved (ok : faults → Prop) (jar_files : list pystr)
  : fsys → fsys → Prop :=
  rtc (save_step ok jar_files).

End Steps.

End Runs.

(** * Theorems *)

(** ** The discovery-only scan leaves the file system alone *)

Module TranlatorFacts.

Import Tranlator.

Section Facts.

Context {F : Type}.
Variable json_loads : pystr → outcome (json F).
Variable dump_report : gmap pystr (list lang_file) → bytes.

Lemma fs_print m w : fs (print m w) = fs w.
Proof. reflexivity. Qed.

Lemma fs_report jar e w : fs (report jar e w) = fs w.
Proof. by destruct e. Qed.

Lemma fs_find_any jar w :
  fs (find_language_files_in_jar json_loads jar w).2 = fs w.
Proof.
  unfold find_language_files_in_jar.
  destruct (open_zip_read jar w) as [ms|e]; simpl.
  - destruct (scan_members json_loads ms) as [found [e|]]; simpl;
      [apply fs_report | done].
  - apply fs_report.
Qed.

Lemma fs_print_details l w : fs (print_details l w) = fs w.
Proof.
  revert w; induction l as [|lf l IH]; intros w; simpl; [done|].
  by rewrite IH.
Qed.

Lemma fs_scan_jars jars res w :
  fs (scan_jars json_loads jars res w).2 = fs w.
Proof.
  revert res w; induction jars as [|jar jars IH]; intros res w; simpl.
  - done.
  - pose proof (fs_find_any jar (print (MsgProcessing jar) w)) as Hf.
    destruct (find_language_files_in_jar json_loads jar
                (print (MsgProcessing jar) w)) as [[|lf lfs] w1];
      simpl in Hf; rewrite IH.
    + by rewrite fs_print, Hf.
    + by rewrite fs_print_details, fs_print, Hf.
Qed.

Lemma fs_scan_directory glob w :
  fs (scan_directory_for_mods json_loads glob w).2 = fs w.
Proof.
  destruct glob as [[|j js]|]; try done.
  unfold scan_directory_for_mods. by rewrite fs_scan_jars.
Qed.

(** C10.  The scan of [tranlator.py] changes no file: the file system
    after [find_language_files_in_jar] and after
    [scan_directory_for_mods] is the one before, so every archive is
    byte-identical; [main] writes the report file, and only that file,
    exactly when something was found and the user answered [y]. *)
Theorem C10_scan_is_read_only (glob : option (list pystr))
    (answer jar : pystr) (w : world) :
  fs (find_language_files_in_jar json_loads jar w).2 = fs w
  ∧ fs (scan_directory_for_mods json_loads glob w).2 = fs w
  ∧ fs (main json_loads dump_report glob answer w)
    = let results := (scan_directory_for_mods json_loads glob
                        (print MsgScanning w)).1 in
      if bool_decide (results = ∅) then fs w
      else if says_yes answer
           then <[output_file :=
                    {| lead := dump_report results; zip_dir := None |}]>
                  (fs w)
           else fs w.
Proof.
  split; [apply fs_find_any|]. split; [apply fs_scan_directory|].
  unfold main.
  pose proof (fs_scan_directory glob (print MsgScanning w)) as Hs.
  destruct (scan_directory_for_mods json_loads glob (print MsgScanning w))
    as [results w1]; simpl in *.
  case_bool_decide; [by rewrite fs_print, Hs|].
  destruct (says_yes answer); simpl; by rewrite Hs.
Qed.

End Facts.

End TranlatorFacts.
(** ** The patterns of the code and the grammar of the specification *)

Module ReFacts.

Import Re Spec.

Lemma eos_tolerant : lf_tolerant eos at_end.
Proof.
  intros s. split.
  - destruct s as [|c [|c' s]]; simpl; intros H; [by left| |done].
    right. exists []. apply N.eqb_eq in H. by subst.
  - intros [H|(s' & -> & H)].
    + by destruct s.
    + by destruct s'.
Qed.

Lemma ilit_cons a p k b s :
  ilit (a :: p) k (b :: s) = if ichar a b then ilit p k s else false.
Proof. unfold ilit. simpl. by destruct (ichar a b). Qed.

Lemma ilit_tolerant p k k_end :
  lf_tolerant k k_end → lf_tolerant (ilit p k) (ilit p k_end).
Proof.
  intros Hk. induction p as [|a p IH]; intros s.
  - apply Hk.
  - destruct s as [|b s].
    + split; [done|]. intros [H|(s' & Hs & _)]; [done|].
      by destruct s'.
    + rewrite !ilit_cons. destruct (ichar a b) eqn:Hab.
      * rewrite (IH s). split.
        -- intros [H|(s' & -> & H)]; [by left|].
           right. exists (b :: s'). by rewrite ilit_cons, Hab.
        -- intros [H|(s' & Hs & H)]; [by left|].
           destruct s' as [|b' s']; [done|].
           injection Hs as <- ->. rewrite ilit_cons, Hab in H.
           right. by exists s'.
      * split; [done|]. intros [H|(s' & Hs & H)]; [done|].
        destruct s' as [|b' s']; [done|].
        injection Hs as <- ->. by rewrite ilit_cons, Hab in H.
Qed.

Lemma not_slash_plus_tolerant k k_end :
  lf_tolerant k k_end →
  lf_tolerant (not_slash_plus k) (not_slash_plus k_end).
Proof.
  intros Hk s. induction s as [|c s IH]; simpl.
  - split; [done|]. intros [H|(s' & Hs & _)]; [done|]. by destruct s'.
  - destruct (c =? 47) eqn:Hc; simpl.
    + split; [done|]. intros [H|(s' & Hs & H)]; [done|].
      destruct s' as [|c' s']; [done|].
      injection Hs as <- ->. simpl in H. by rewrite Hc in H.
    + rewrite !orb_true_iff, (Hk s), IH. split.
      * intros [[H|(s' & -> & H)]|[H|(s' & -> & H)]].
        -- left. by left.
        -- right. exists (c :: s'). simpl. rewrite Hc, H. done.
        -- left. by right.
        -- right. exists (c :: s'). simpl. rewrite Hc, H.
           by rewrite orb_true_r.
      * intros [[H|H]|(s' & Hs & H)].
        -- left. by left.
        -- right. by left.
        -- destruct s' as [|c' s']; [done|].
           injection Hs as <- ->. simpl in H. rewrite Hc in H. simpl in H.
           apply orb_true_iff in H as [H|H].
           ++ left. right. by exists s'.
           ++ right. right. by exists s'.
Qed.

Lemma alt_tolerant (m1 m2 : matcher) k k_end :
  lf_tolerant (m1 k) (m1 k_end) →
  lf_tolerant (m2 k) (m2 k_end) →
  lf_tolerant (alt m1 m2 k) (alt m1 m2 k_end).
Proof.
  intros H1 H2 s. unfold alt. rewrite !orb_true_iff, (H1 s), (H2 s).
  split.
  - intros [[H|(s' & -> & H)]|[H|(s' & -> & H)]].
    + left. by left.
    + right. exists s'. by rewrite H.
    + left. by right.
    + right. exists s'. by rewrite H, orb_true_r.
  - intros [[H|H]|(s' & -> & H)].
    + left. by left.
    + right. by left.
    + apply orb_true_iff in H as [H|H].
      * left. right. by exists s'.
      * right. right. by exists s'.
Qed.

(** The pattern of the discovery scan accepts the paths of the grammar,
    and those paths followed by one line feed; nothing else. *)
Lemma lang_pattern_any_grammar p :
  lang_pattern_any p = true
  ↔ Spec.lang_path p = true
    ∨ ∃ p', p = p' ++ [10] ∧ Spec.lang_path p' = true.
Proof.
  apply alt_tolerant;
    repeat first [apply ilit_tolerant | apply not_slash_plus_tolerant];
    apply eos_tolerant.
Qed.

(** The same for the pattern of the translating locator. *)
Lemma lang_pattern_en_us_grammar p :
  lang_pattern_en_us p = true
  ↔ Spec.lang_path_en_us p = true
    ∨ ∃ p', p = p' ++ [10] ∧ Spec.lang_path_en_us p' = true.
Proof.
  apply alt_tolerant;
    repeat first [apply ilit_tolerant | apply not_slash_plus_tolerant];
    apply eos_tolerant.
Qed.

End ReFacts.

(** ** The two locators *)

Module LocatorFacts.

Module D := Tranlator.
Module T := TranslatorAdvance.

Section Facts.

Context {F : Type}.
Variable json_loads : pystr → outcome (json F).

(** What [find_language_files_in_jar] returns depends on the file
    system only. *)
Lemma D_find_fst jar w w' :
  fs w = fs w' →
  (D.find_language_files_in_jar json_loads jar w).1
  = (D.find_language_files_in_jar json_loads jar w').1.
Proof.
  intros Hfs. unfold D.find_language_files_in_jar, open_zip_read.
  rewrite Hfs. destruct (fs w' !! jar) as [f|]; [|done].
  destruct (zip_dir f) as [ms|]; [|done].
  by destruct (D.scan_members json_loads ms) as [found [e|]].
Qed.


(** An exception that is not skipped ends the loop; the entries found
    before it are kept. *)
Lemma D_scan_members_stop ms1 m ms2 e found :
  D.scan_members json_loads ms1 = (found, None) →
  Re.lang_pattern_any (filename m) = true →
  D.check_member json_loads m = Raise e →
  D.skipped e = false →
  D.scan_members json_loads (ms1 ++ m :: ms2) = (found, Some e).
Proof.
  intros H1 Hp Hc Hs. revert found H1.
  induction ms1 as [|m1 ms1 IH]; intros found H1; simpl in *.
  - injection H1 as <-. by rewrite Hp, Hc, Hs.
  - destruct (Re.lang_pattern_any (filename m1)); [|by apply IH].
    destruct (D.check_member json_loads m1) as [lf|e1].
    + destruct (D.scan_members json_loads ms1) as [found1 stop1].
      injection H1 as <- ->. by rewrite (IH found1).
    + destruct (D.skipped e1); [by apply IH | done].
Qed.

Lemma T_scan_members_stop ms1 m ms2 e found :
  T.scan_members json_loads ms1 = (found, None) →
  Re.lang_pattern_en_us (filename m) = true →
  T.check_member json_loads m = Raise e →
  T.skipped e = false →
  T.scan_members json_loads (ms1 ++ m :: ms2) = (found, Some e).
Proof.
  intros H1 Hp Hc Hs. revert found H1.
  induction ms1 as [|m1 ms1 IH]; intros found H1; simpl in *.
  - injection H1 as <-. by rewrite Hp, Hc, Hs.
  - destruct (Re.lang_pattern_en_us (filename m1)); [|by apply IH].
    destruct (T.check_member json_loads m1) as [lf|e1].
    + destruct (T.scan_members json_loads ms1) as [found1 stop1].
      injection H1 as <- ->. by rewrite (IH found1).
    + destruct (T.skipped e1); [by apply IH | done].
Qed.

(** Every entry the translating locator yields comes from a member
    whose name matches the pattern and whose data could be read,
    decoded and parsed. *)
Lemma T_scan_members_sound ms found stop lf :
  T.scan_members json_loads ms = (found, stop) →
  lf ∈ found →
  ∃ m raw text,
    m ∈ ms ∧ T.path lf = filename m
    ∧ Re.lang_pattern_en_us (filename m) = true
    ∧ payload m = Ret raw ∧ Utf8.decode raw = Ret text
    ∧ json_loads text = Ret (T.content lf).
Proof.
  revert found stop.
  induction ms as [|m ms IH]; intros found stop H Hin; simpl in H.
  - injection H as <- <-. by apply elem_of_nil in Hin.
  - assert (Hrest : ∀ found' stop',
              T.scan_members json_loads ms = (found', stop') →
              lf ∈ found' →
              ∃ m0 raw text, m0 ∈ m :: ms ∧ T.path lf = filename m0
                ∧ Re.lang_pattern_en_us (filename m0) = true
                ∧ payload m0 = Ret raw ∧ Utf8.decode raw = Ret text
                ∧ json_loads text = Ret (T.content lf)).
    { intros f' s' H' Hin'.
      destruct (IH f' s' H' Hin') as (m0 & raw & text & Hm & Hrest).
      exists m0, raw, text. split; [by apply list_elem_of_further|done]. }
    destruct (Re.lang_pattern_en_us (filename m)) eqn:Hp; [|by eapply Hrest].
    destruct (T.check_member json_loads m) as [lf0|e] eqn:Hc.
    + destruct (T.scan_members json_loads ms) as [found1 stop1] eqn:Hs.
      injection H as <- <-.
      apply elem_of_cons in Hin as [->|Hin]; [|by eapply Hrest].
      unfold T.check_member, bind in Hc.
      destruct (payload m) as [raw|] eqn:Hraw; [|done].
      destruct (Utf8.decode raw) as [text|] eqn:Hdec; [|done].
      destruct (json_loads text) as [j|] eqn:Hj; [|done].
      injection Hc as <-. exists m, raw, text.
      split; [by apply list_elem_of_here|done].
    + destruct (T.skipped e); [by eapply Hrest|].
      injection H as <- <-. by apply elem_of_nil in Hin.
Qed.

Lemma D_scan_members_sound ms found stop lf :
  D.scan_members json_loads ms = (found, stop) →
  lf ∈ found →
  ∃ m raw text j,
    m ∈ ms ∧ D.path lf = filename m
    ∧ Re.lang_pattern_any (filename m) = true
    ∧ payload m = Ret raw ∧ Utf8.decode raw = Ret text
    ∧ json_loads text = Ret j.
Proof.
  revert found stop.
  induction ms as [|m ms IH]; intros found stop H Hin; simpl in H.
  - injection H as <- <-. by apply elem_of_nil in Hin.
  - assert (Hrest : ∀ found' stop',
              D.scan_members json_loads ms = (found', stop') →
              lf ∈ found' →
              ∃ m0 raw text j, m0 ∈ m :: ms ∧ D.path lf = filename m0
                ∧ Re.lang_pattern_any (filename m0) = true
                ∧ payload m0 = Ret raw ∧ Utf8.decode raw = Ret text
                ∧ json_loads text = Ret j).
    { intros f' s' H' Hin'.
      destruct (IH f' s' H' Hin') as (m0 & raw & text & j & Hm & Hrest).
      exists m0, raw, text, j. split; [by apply list_elem_of_further|done]. }
    destruct (Re.lang_pattern_any (filename m)) eqn:Hp; [|by eapply Hrest].
    destruct (D.check_member json_loads m) as [lf0|e] eqn:Hc.
    + destruct (D.scan_members json_loads ms) as [found1 stop1] eqn:Hs.
      injection H as <- <-.
      apply elem_of_cons in Hin as [->|Hin]; [|by eapply Hrest].
      unfold D.check_member, bind in Hc.
      destruct (payload m) as [raw|] eqn:Hraw; [|done].
      destruct (Utf8.decode raw) as [text|] eqn:Hdec; [|done].
      destruct (json_loads text) as [j|] eqn:Hj; [|done].
      injection Hc as <-. exists m, raw, text, j.
      split; [by apply list_elem_of_here|done].
    + destruct (D.skipped e); [by eapply Hrest|].
      injection H as <- <-. by apply elem_of_nil in Hin.
Qed.

(** A member whose name matches but whose bytes are not UTF-8, or
    whose text is not JSON, contributes nothing and does not end the
    loop. *)
Lemma T_scan_members_skip m ms raw :
  Re.lang_pattern_en_us (filename m) = true →
  payload m = Ret raw →
  (Utf8.decode raw = Raise UnicodeDecodeError
   ∨ ∃ text, Utf8.decode raw = Ret text
             ∧ json_loads text = Raise JSONDecodeError) →
  T.scan_members json_loads (m :: ms) = T.scan_members json_loads ms.
Proof.
  intros Hp Hraw Hbad. simpl. rewrite Hp.
  unfold T.check_member, bind. rewrite Hraw.
  destruct Hbad as [->|(text & -> & ->)]; done.
Qed.

Lemma D_scan_members_skip m ms raw :
  Re.lang_pattern_any (filename m) = true →
  payload m = Ret raw →
  (Utf8.decode raw = Raise UnicodeDecodeError
   ∨ ∃ text, Utf8.decode raw = Ret text
             ∧ json_loads text = Raise JSONDecodeError) →
  D.scan_members json_loads (m :: ms) = D.scan_members json_loads ms.
Proof.
  intros Hp Hraw Hbad. simpl. rewrite Hp.
  unfold D.check_member, bind. rewrite Hraw.
  destruct Hbad as [->|(text & -> & ->)]; done.
Qed.


(** The discovery scan records, for every archive it was given, the
    entries found in it, whatever happened with the other archives. *)
Lemma D_scan_jars_lookup jars res w j :
  (D.scan_jars json_loads jars res w).1 !! j
  = if decide (j ∈ jars)
    then match (D.find_language_files_in_jar json_loads j w).1 with
         | [] => res !! j
         | l => Some l
         end
    else res !! j.
Proof.
  revert res w. induction jars as [|jar rest IH]; intros res w.
  - cbn [D.scan_jars].
    destruct (decide (j ∈ [])) as [H|H]; [by apply elem_of_nil in H | done].
  - cbn [D.scan_jars].
    pose proof (TranlatorFacts.fs_find_any json_loads jar
                  (print (MsgProcessing jar) w)) as Hfs.
    pose proof (D_find_fst jar (print (MsgProcessing jar) w) w eq_refl)
      as Hsame.
    destruct (D.find_language_files_in_jar json_loads jar
                (print (MsgProcessing jar) w)) as [l w1].
    simpl in Hfs, Hsame. subst l.
    destruct (D.find_language_files_in_jar json_loads jar w).1
      as [|x xs] eqn:Hl.
    + rewrite IH.
      rewrite (D_find_fst j (print MsgNoneFound w1) w) by done.
      destruct (decide (j = jar)) as [->|Hne].
      * rewrite Hl. rewrite (decide_True (P := jar ∈ jar :: rest))
          by apply list_elem_of_here.
        by case_decide.
      * case_decide as Hin.
        -- by rewrite decide_True by by apply list_elem_of_further.
        -- rewrite decide_False; [done|].
           intros [?|?]%elem_of_cons; done.
    + rewrite IH.
      rewrite (D_find_fst j _ w)
        by by rewrite TranlatorFacts.fs_print_details.
      destruct (decide (j = jar)) as [->|Hne].
      * rewrite Hl, lookup_insert_eq.
        rewrite (decide_True (P := jar ∈ jar :: rest))
          by apply list_elem_of_here.
        by case_decide.
      * rewrite lookup_insert_ne by done.
        case_decide as Hin.
        -- by rewrite decide_True by by apply list_elem_of_further.
        -- rewrite decide_False; [done|].
           intros [?|?]%elem_of_cons; done.
Qed.

(** C7 (amended).  When the archive cannot be opened, either locator
    reports the error and yields nothing.  When reading a member
    fails unexpectedly, the locator reports the error and yields the
    entries found before that member.  The scans go on with the next
    archive: the discovery scan records the entries of every archive
    that has some, and the translating loop continues with the
    archives that remain. *)
Theorem C7_locator_failures :
  (∀ jar w e,
     open_zip_read jar w = Raise e →
     D.find_language_files_in_jar json_loads jar w
       = ([], D.report jar e w)
     ∧ T.find_language_files_in_jar json_loads jar w
       = ([], T.report jar e w))
  ∧ (∀ jar w ms1 m ms2 e found,
       open_zip_read jar w = Ret (ms1 ++ m :: ms2) →
       D.scan_members json_loads ms1 = (found, None) →
       Re.lang_pattern_any (filename m) = true →
       D.check_member json_loads m = Raise e →
       D.skipped e = false →
       D.find_language_files_in_jar json_loads jar w
         = (found, D.report jar e w))
  ∧ (∀ jar w ms1 m ms2 e found,
       open_zip_read jar w = Ret (ms1 ++ m :: ms2) →
       T.scan_members json_loads ms1 = (found, None) →
       Re.lang_pattern_en_us (filename m) = true →
       T.check_member json_loads m = Raise e →
       T.skipped e = false →
       T.find_language_files_in_jar json_loads jar w
         = (found, T.report jar e w))
  ∧ (∀ jars w j,
       j ∈ jars →
       (D.scan_jars json_loads jars ∅ w).1 !! j
       = match (D.find_language_files_in_jar json_loads j w).1 with
         | [] => None
         | l => Some l
         end)
  ∧ (∀ float_truthy json_dumps header self E jars jar rest st w1,
       T.find_language_files_in_jar json_loads jar
         (print (MsgProcessing jar) (T.now st)) = ([], w1) →
       T.translate_jars float_truthy json_loads json_dumps header
         self E jars (jar :: rest) st
       = T.translate_jars float_truthy json_loads json_dumps header
           self E jars rest
           {| T.total_files := T.total_files st;
              T.successful_translations := T.successful_translations st;
              T.now := print MsgNoneFound w1 |}).
Proof.
  split; [|split; [|split; [|split]]].
  - intros jar w e He.
    unfold D.find_language_files_in_jar, T.find_language_files_in_jar.
    by rewrite He.
  - intros jar w ms1 m ms2 e found Ho H1 Hp Hc Hs.
    unfold D.find_language_files_in_jar. rewrite Ho.
    by rewrite (D_scan_members_stop ms1 m ms2 e found).
  - intros jar w ms1 m ms2 e found Ho H1 Hp Hc Hs.
    unfold T.find_language_files_in_jar. rewrite Ho.
    by rewrite (T_scan_members_stop ms1 m ms2 e found).
  - intros jars w j Hin. rewrite D_scan_jars_lookup.
    rewrite decide_True by done.
    by destruct (D.find_language_files_in_jar json_loads j w).1.
  - intros float_truthy json_dumps header self E jars jar rest st w1 Hf.
    cbn [T.translate_jars]. by rewrite Hf.
Qed.

End Facts.

Import Examples.

(** C7, as stated, fails: the second language entry of the archive
    cannot be read, the error is reported, and the entry found before it
    is yielded all the same. *)
Lemma C7_counterexample :
  let w := world_of fs_locked in
  let r := T.find_language_files_in_jar Ref.loads jar_a w in
  ¬ (out r.2 ≠ out w → r.1 = []).
Proof. vm_compute. intros H. by discriminate H. Qed.

Lemma C7_witness :
  T.find_language_files_in_jar Ref.loads jar_a (world_of fs_corrupt)
    = ([], print (MsgNotAJar jar_a) (world_of fs_corrupt))
  ∧ T.find_language_files_in_jar Ref.loads jar_a (world_of fs_locked)
    = ([lf_sword],
       print (MsgJarError jar_a (OtherException "RuntimeError"))
         (world_of fs_locked))
  ∧ (D.scan_jars Ref.loads [jar_a; jar_b] ∅ (world_of fs_corrupt)).1
      !! jar_b
    = Some [ {| D.path := en_us_m1; D.size := 23;
                D.mod_id := str "m1"; D.lang_code := str "en_us" |} ].
Proof.
  pose proof (C7_locator_failures Ref.loads) as (Hopen & _ & Hread & Hscan & _).
  split; [|split].
  - apply (Hopen jar_a (world_of fs_corrupt) BadZipFile). reflexivity.
  - apply (Hread jar_a (world_of fs_locked) [member en_us_m1 sword]
             (locked_member (str "assets/m2/lang/en_us.json"))
             [member (str "assets/m3/lang/en_us.json") sword]
             (OtherException "RuntimeError") [lf_sword]);
      reflexivity.
  - rewrite (Hscan [jar_a; jar_b] (world_of fs_corrupt) jar_b).
    + reflexivity.
    + apply list_elem_of_further, list_elem_of_here.
Defined.

(** C6 (failing input).  A member whose name ends with a line feed is
    not a path of the grammar, yet both locators yield it. *)
Theorem C6_name_with_line_feed_is_yielded :
  Spec.lang_path en_us_lf = false
  ∧ Spec.lang_path_en_us en_us_lf = false
  ∧ map T.path
      (T.find_language_files_in_jar Ref.loads jar_a (world_of fs_newline)).1
    = [en_us_lf]
  ∧ map D.path
      (D.find_language_files_in_jar Ref.loads jar_a (world_of fs_newline)).1
    = [en_us_lf].
Proof. by vm_compute. Qed.

End LocatorFacts.
(** ** Searching in strings *)

Module PyFacts.

Import Py.

Lemma strip_prefix_app p q s r :
  strip_prefix (p ++ q) s = Some r →
  ∃ r', strip_prefix p s = Some r'.
Proof.
  revert s. induction p as [|a p IH]; intros s H; simpl in *.
  - by exists s.
  - destruct s as [|b s]; [done|].
    destruct (a =? b); [by apply IH | done].
Qed.

(** A string that starts with [p ++ q] starts with [p]. *)
Lemma startswith_app s p q :
  startswith s (p ++ q) = true → startswith s p = true.
Proof.
  unfold startswith. intros H.
  destruct (strip_prefix (p ++ q) s) as [r|] eqn:Hr; [|done].
  by destruct (strip_prefix_app p q s r Hr) as [r' ->].
Qed.

(** [find] returns a position at which the pattern occurs. *)
Lemma find_Some sub s i :
  find sub s = Some i → startswith (drop i s) sub = true.
Proof.
  revert i. induction s as [|c s IH]; intros i H; simpl in H.
  - destruct (startswith [] sub) eqn:Hs; [|done].
    injection H as <-. done.
  - destruct (startswith (c :: s) sub) eqn:Hs.
    + injection H as <-. done.
    + destruct (find sub s) as [k|] eqn:Hk; [|done].
      injection H as <-. simpl. by apply IH.
Qed.

(** When [find] fails the pattern occurs nowhere. *)
Lemma find_None sub s i :
  find sub s = None → startswith (drop i s) sub = false.
Proof.
  revert i. induction s as [|c s IH]; intros i H; simpl in H.
  - destruct (startswith [] sub) eqn:Hs; [done|].
    by rewrite drop_nil.
  - destruct (startswith (c :: s) sub) eqn:Hs; [done|].
    destruct (find sub s) as [k|] eqn:Hk; [done|].
    destruct i as [|i]; [done|]. simpl. by apply IH.
Qed.

Lemma strip_prefix_self p : strip_prefix p p = Some [].
Proof. induction p as [|a p IH]; simpl; [done|]. by rewrite N.eqb_refl. Qed.

Lemma startswith_self p : startswith p p = true.
Proof. unfold startswith. by rewrite strip_prefix_self. Qed.

Lemma replace_aux_skip old new s k :
  (length s ≤ k)%nat → replace_aux old new s k = [].
Proof.
  revert k. induction s as [|c s IH]; intros k Hk; simpl; [done|].
  destruct k as [|k]; simpl in Hk; [lia|]. apply IH. lia.
Qed.

(** When the only occurrence of [old] is at the end of the string, it is
    that occurrence which is replaced. *)
Lemma replace_at_end old new pre :
  old ≠ [] →
  find old (pre ++ old) = Some (length pre) →
  replace (pre ++ old) old new = pre ++ new.
Proof.
  intros Hold. unfold replace.
  induction pre as [|c pre IH]; intros Hfind.
  - destruct old as [|a old]; [done|]. cbn [app replace_aux].
    rewrite startswith_self. rewrite replace_aux_skip; [by rewrite app_nil_r|].
    simpl. lia.
  - cbn [app replace_aux]. cbn [app find length] in Hfind.
    destruct (startswith (c :: pre ++ old) old); [done|].
    destruct (find old (pre ++ old)) as [i|]; [|done].
    injection Hfind as ->. by rewrite IH.
Qed.

(** The derived path of a name in lower case whose only occurrence of
    [en_us.json] is the file name. *)
Lemma ja_jp_path_of_lower pre :
  find (str "en_us.json") (pre ++ str "en_us.json") = Some (length pre) →
  ja_jp_path_of (pre ++ str "en_us.json") = pre ++ str "ja_jp.json".
Proof. intros H. by apply replace_at_end. Qed.

End PyFacts.

(** ** The translating pipeline *)

Module AdvanceFacts.

Import TranslatorAdvance Mutator.

Lemma backup_path_neq jar : backup_path_of jar ≠ jar.
Proof.
  unfold backup_path_of. intros H.
  apply (f_equal length) in H. rewrite length_app in H.
  simpl in H. lia.
Qed.

Section Facts.

Context {F : Type}.
Variable float_truthy : F → bool.
Variable json_loads : pystr → outcome (json F).
Variable json_dumps : json F → outcome pystr.
Variable prompt_header : pystr.

Abbreviation save := (save_translated_json_to_jar json_dumps).
Abbreviation find := (find_language_files_in_jar json_loads).
Abbreviation count := (count_language_files json_loads).
Abbreviation translate :=
  (translate_json_with_gemini json_loads json_dumps prompt_header).
Abbreviation body :=
  (translate_lang_file float_truthy json_loads json_dumps prompt_header).
Abbreviation loop :=
  (translate_jars float_truthy json_loads json_dumps prompt_header).

(** *** Archive mutation *)

(** The four ways a call can end: nothing was written; the copy to
    the backup failed, and left something or not; the backup step passed
    and the move failed, and left something or not; the backup step
    passed and the archive was replaced.  The call reports success
    exactly when it ran to its end. *)
Lemma save_cases flt jar lf tc w :
  let r := save flt jar lf tc w in
  (r.1 = false ∧ fs r.2 = fs w)
  ∨ (r.1 = false
     ∧ fs w !! backup_path_of jar = None
     ∧ ∃ x, flt CopyBackup = Some x
            ∧ fs r.2 = with_debris (backup_path_of jar) x (fs w))
  ∨ (r.1 = false
     ∧ ∃ f x, fs w !! jar = Some f
              ∧ flt MoveBack = Some x
              ∧ fs r.2 = with_debris jar x (with_backup jar f (fs w)))
  ∨ (∃ f s data,
       fs w !! jar = Some f
       ∧ json_dumps tc = Ret s
       ∧ Utf8.encode s = Ret data
       ∧ fs r.2 = <[jar := zip_append f (ja_jp_path_of (path lf)) data]>
                    (with_backup jar f (fs w))
       ∧ flt MoveBack = None
       ∧ (r.1 = true ∨ (r.1 = false ∧ is_Some (flt Cleanup)))).
Proof.
  unfold save_translated_json_to_jar, save_steps, with_backup, with_debris.
  unfold mbind, io_bind, mret, io_ret, fault, fault_at, lift, say,
    read_file, write_file, path_exists.
  destruct (flt MkTemp); [by left|].
  destruct (fs w !! jar) as [f|] eqn:Hjar; [|by left].
  destruct (flt CopyToTemp); [by left|].
  destruct (flt OpenAppend); [by left|].
  destruct (json_dumps tc) as [s|] eqn:Hs; [|by left].
  destruct (Utf8.encode s) as [data|] eqn:Hd; [|by left].
  destruct (flt WriteEntry); [by left|].
  destruct (flt CloseZip); [by left|].
  destruct (fs w !! backup_path_of jar) as [b|] eqn:Hb; simpl.
  - destruct (flt MoveBack) as [x|] eqn:Hmv; simpl.
    + right; right; left. split; [done|]. exists f, x.
      by destruct (left_behind x).
    + right; right; right. exists f, s, data.
      destruct (flt Cleanup) eqn:Hc; simpl; repeat split; eauto.
  - rewrite ?Hjar.
    destruct (flt CopyBackup) as [x|] eqn:Hcb; simpl.
    { right; left. split; [done|]. split; [done|]. exists x.
      by destruct (left_behind x). }
    destruct (flt MoveBack) as [x|] eqn:Hmv; simpl.
    + right; right; left. split; [done|]. exists f, x.
      by destruct (left_behind x).
    + right; right; right. exists f, s, data.
      destruct (flt Cleanup) eqn:Hc; simpl; repeat split; eauto.
Qed.

Lemma with_debris_lookup_ne (p q : pystr) (x : failure) (files : fsys) :
  q ≠ p → with_debris p x files !! q = files !! q.
Proof.
  intros Hne. unfold with_debris.
  destruct (left_behind x); [by rewrite lookup_insert_ne|done].
Qed.

Lemma with_debris_clean (p : pystr) (x : failure) (files : fsys) :
  left_behind x = None → with_debris p x files = files.
Proof. intros H. unfold with_debris. by rewrite H. Qed.

Lemma with_backup_lookup (jar : pystr) (f : file_data) (files : fsys) :
  with_backup jar f files !! backup_path_of jar
  = Some (default f (files !! backup_path_of jar)).
Proof.
  unfold with_backup.
  destruct (files !! backup_path_of jar) as [b|] eqn:Hb; simpl.
  - done.
  - by rewrite lookup_insert_eq.
Qed.

Lemma with_backup_lookup_ne (jar : pystr) (f : file_data) (files : fsys)
    (p : pystr) :
  p ≠ backup_path_of jar →
  with_backup jar f files !! p = files !! p.
Proof.
  intros Hne. unfold with_backup.
  destruct (files !! backup_path_of jar); [done|].
  by rewrite lookup_insert_ne.
Qed.

(** A backup that exists is never written again. *)
Lemma save_keeps_backup flt jar lf tc w b :
  fs w !! backup_path_of jar = Some b →
  fs (save flt jar lf tc w).2 !! backup_path_of jar = Some b.
Proof.
  intros Hb.
  destruct (save_cases flt jar lf tc w)
    as [[_ ->]|[(_ & Hnone & _)|[(_ & f & x & _ & _ & ->)
                                |(f & s & data & _ & _ & _ & -> & _)]]].
  - done.
  - congruence.
  - rewrite with_debris_lookup_ne by apply backup_path_neq.
    by rewrite with_backup_lookup, Hb.
  - rewrite lookup_insert_ne by (apply not_eq_sym, backup_path_neq).
    by rewrite with_backup_lookup, Hb.
Qed.

(** Only the archive and its backup are ever written. *)
Lemma save_elsewhere flt jar lf tc w p :
  p ≠ jar → p ≠ backup_path_of jar →
  fs (save flt jar lf tc w).2 !! p = fs w !! p.
Proof.
  intros Hj Hb.
  destruct (save_cases flt jar lf tc w)
    as [[_ ->]|[(_ & _ & x & _ & ->)|[(_ & f & x & _ & _ & ->)
                                     |(f & s & data & _ & _ & _ & -> & _)]]].
  - done.
  - by rewrite with_debris_lookup_ne.
  - rewrite with_debris_lookup_ne by done. by rewrite with_backup_lookup_ne.
  - rewrite lookup_insert_ne by done. by rewrite with_backup_lookup_ne.
Qed.

(** A successful call: no file was missing, and the file system is
    the old one with the backup step passed and the archive
    replaced. *)
Lemma save_success flt jar lf tc w w' :
  save flt jar lf tc w = (true, w') →
  ∃ f s data,
    fs w !! jar = Some f
    ∧ json_dumps tc = Ret s
    ∧ Utf8.encode s = Ret data
    ∧ fs w' = <[jar := zip_append f (ja_jp_path_of (path lf)) data]>
                (with_backup jar f (fs w)).
Proof.
  intros Hsave.
  destruct (save_cases flt jar lf tc w)
    as [[H _]|[(H & _)|[(H & _)|(f & s & data & Hf & Hs & Hd & Hfs & _)]]];
    rewrite Hsave in *; simpl in *; try done.
  by exists f, s, data.
Qed.

(** C3.  Take an archive that has no backup yet.  After [n >= 1]
    successful mutations, one after the other, the backup exists and
    holds what the archive held before the first of them; and whatever
    call comes next, successful or not, leaves the backup as it is. *)
Theorem C3_backup_is_pristine (jar : pystr) (original : file_data)
    (n : nat) (w w' : world) :
  fs w !! jar = Some original →
  fs w !! backup_path_of jar = None →
  (1 ≤ n)%nat →
  mutations json_dumps jar n w w' →
  fs w' !! backup_path_of jar = Some original
  ∧ ∀ flt lf translated,
      fs (save flt jar lf translated w').2 !! backup_path_of jar
      = Some original.
Proof.
  intros Hjar Hnone Hn Hmut.
  assert (Hkept : ∀ k v v',
            mutations json_dumps jar k v v' →
            fs v !! backup_path_of jar = Some original →
            fs v' !! backup_path_of jar = Some original).
  { intros k v v' Hm. induction Hm as
      [v v' Hfs | k v v1 v2 Hfs Hm IH | k v v1 v2 flt lf tc Hsave Hm IH];
      intros Hb.
    - by rewrite Hfs.
    - apply IH. by rewrite Hfs.
    - apply IH.
      pose proof (save_keeps_backup flt jar lf tc v original Hb) as H.
      by rewrite Hsave in H. }
  assert (Hnow : fs w' !! backup_path_of jar = Some original).
  { induction Hmut as
      [v v' Hfs | k v v1 v2 Hfs Hm IH | k v v1 v2 flt lf tc Hsave Hm _].
    - lia.
    - apply IH; [by rewrite Hfs | by rewrite Hfs | done].
    - apply (Hkept k v1 v2 Hm).
      destruct (save_success flt jar lf tc v v1 Hsave)
        as (f & s & data & Hf & _ & _ & ->).
      rewrite lookup_insert_ne by (apply not_eq_sym, backup_path_neq).
      rewrite with_backup_lookup, Hnone. simpl. congruence. }
  split; [done|]. intros flt lf translated.
  by apply save_keeps_backup.
Qed.


(** How a call reports its end. *)
Lemma save_reports flt jar lf tc w :
  let r := save flt jar lf tc w in
  if r.1
  then last (out r.2)
       = Some (Print (MsgAddedToJar (ja_jp_path_of (path lf))))
  else ∃ e, last (out r.2) = Some (Print (MsgJarUpdateError e)).
Proof.
  unfold save_translated_json_to_jar.
  destruct (save_steps json_dumps flt jar (ja_jp_path_of (path lf)) tc w)
    as [[u|e] w1]; simpl.
  - by rewrite last_snoc.
  - exists e. by rewrite last_snoc.
Qed.

(** The mutator only prints. *)
Lemma save_prints flt jar lf tc w :
  ∃ ms, out (save flt jar lf tc w).2 = out w ++ map Print ms.
Proof.
  unfold save_translated_json_to_jar, save_steps.
  unfold mbind, io_bind, mret, io_ret, fault, fault_at, lift, say,
    read_file, write_file, path_exists, print, emit.
  assert (Hone : ∀ m, ∃ ms, out w ++ [Print m] = out w ++ map Print ms)
    by (intros m; by exists [m]).
  assert (Htwo : ∀ m1 m2,
            ∃ ms, (out w ++ [Print m1]) ++ [Print m2]
                  = out w ++ map Print ms).
  { intros m1 m2. exists [m1; m2]. by rewrite <- app_assoc. }
  destruct (flt MkTemp); [apply Hone|].
  destruct (fs w !! jar) as [f|] eqn:Hjar; [|apply Hone].
  destruct (flt CopyToTemp); [apply Hone|].
  destruct (flt OpenAppend); [apply Hone|].
  destruct (json_dumps tc) as [s|]; [|apply Hone].
  destruct (Utf8.encode s) as [data|]; [|apply Hone].
  destruct (flt WriteEntry); [apply Hone|].
  destruct (flt CloseZip); [apply Hone|].
  destruct (fs w !! backup_path_of jar) as [b|] eqn:Hb; simpl;
    rewrite ?Hjar;
    destruct (flt CopyBackup) as [x1|], (flt MoveBack) as [x2|],
      (flt Cleanup);
    simpl;
    try destruct (left_behind x1); try destruct (left_behind x2); simpl;
    first [apply Hone | apply Htwo].
Qed.

(** Without faults, on an archive that exists and a mapping that can
    be serialized and encoded, the call succeeds. *)
Lemma save_no_faults flt jar lf tc w f s data :
  (∀ st, flt st = None) →
  fs w !! jar = Some f →
  json_dumps tc = Ret s →
  Utf8.encode s = Ret data →
  (save flt jar lf tc w).1 = true
  ∧ fs (save flt jar lf tc w).2
    = <[jar := zip_append f (ja_jp_path_of (path lf)) data]>
        (with_backup jar f (fs w)).
Proof.
  intros Hflt Hjar Hs Hd.
  unfold save_translated_json_to_jar, save_steps, with_backup.
  unfold mbind, io_bind, mret, io_ret, fault, fault_at, lift, say,
    read_file, write_file, path_exists.
  rewrite !Hflt, Hjar, Hs, Hd.
  destruct (fs w !! backup_path_of jar) as [b|] eqn:Hb; simpl.
  - by rewrite ?Hflt.
  - by rewrite ?Hjar, ?Hflt.
Qed.

(** *** The steps that only read *)

Lemma fs_T_report jar e w : fs (report jar e w) = fs w.
Proof. by destruct e. Qed.

Lemma fs_find jar w : fs (find jar w).2 = fs w.
Proof.
  unfold find_language_files_in_jar.
  destruct (open_zip_read jar w) as [ms|e]; simpl.
  - destruct (scan_members json_loads ms) as [found [e|]]; simpl;
      [apply fs_T_report | done].
  - apply fs_T_report.
Qed.

Lemma fs_count jars w : fs (count jars w).2 = fs w.
Proof.
  revert w. induction jars as [|jf rest IH]; intros w; simpl; [done|].
  pose proof (fs_find jf w) as Hf.
  destruct (find jf w) as [l w1]. simpl in Hf.
  specialize (IH w1). destruct (count rest w1) as [n w2].
  simpl in *. congruence.
Qed.

Lemma fs_translate gc data w : fs (translate gc data w).2 = fs w.
Proof.
  unfold translate_json_with_gemini.
  destruct (json_dumps data) as [json_str|e]; [|done].
  destruct (gc _) as [r|e]; [|done].
  destruct (response_text r) as [t|]; [|done].
  destruct (json_loads _) as [j|[]]; done.
Qed.

(** The loop body always counts the entry; it returns, whatever the
    service and the file system did. *)
Lemma body_counts self E jars jar st lf :
  total_files (body self E jars jar st lf) = S (total_files st).
Proof.
  unfold translate_lang_file.
  destruct (translate _ _ _) as [tc w1].
  destruct (truthy float_truthy tc).
  - destruct (save _ _ _ _ _) as [[|] w2];
      by destruct (count _ _) as [located w3].
  - by destruct (count _ _) as [located w3].
Qed.

Lemma fold_body_counts self E jars jar lfs st :
  total_files (fold_left (body self E jars jar) lfs st)
  = (total_files st + length lfs)%nat.
Proof.
  revert st. induction lfs as [|lf lfs IH]; intros st; simpl.
  - lia.
  - rewrite IH, body_counts. lia.
Qed.

(** C2 (amended).  When the call fails at a step before the archive
    is replaced, the archive file is exactly what it was; the failure
    is caught and reported, the call returns [False]; and the loop over
    the entries of the archive attempts every one of them, whatever
    the outcome of the others. *)
Theorem C2_failure_before_replacement (flt : faults) (jar : pystr)
    (lf : lang_file F) (translated : json F) (w : world) :
  (save flt jar lf translated w).1 = false →
  flt MoveBack = None →
  flt Cleanup = None →
  fs (save flt jar lf translated w).2 !! jar = fs w !! jar
  ∧ (∃ e, last (out (save flt jar lf translated w).2)
          = Some (Print (MsgJarUpdateError e)))
  ∧ (∀ self E jars lfs st,
       total_files (fold_left (body self E jars jar) lfs st)
       = (total_files st + length lfs)%nat).
Proof.
  intros Hfail Hmove Hclean. split; [|split].
  - destruct (save_cases flt jar lf translated w)
      as [[_ ->]|[(_ & _ & x & _ & ->)
                 |[(_ & f & x & _ & He & _)
                  |(f & s & data & _ & _ & _ & _ & _ & H)]]].
    + done.
    + apply with_debris_lookup_ne, not_eq_sym, backup_path_neq.
    + congruence.
    + destruct H as [H|[_ [e He]]]; congruence.
  - pose proof (save_reports flt jar lf translated w) as H.
    simpl in H. by rewrite Hfail in H.
  - intros. apply fold_body_counts.
Qed.

(** C1 (amended).  The loop body compares no key sets.  When the
    value the translation returned is falsy ([None] after a failure,
    or an empty value), nothing is written to the file system.  When
    it is truthy, it is saved as it is: without faults the archive
    gets the new member. *)
Theorem C1_acceptance_ignores_keys (self : ModTranslator) (E : env)
    (jars : list pystr) (jar : pystr) (st : progress)
    (lf : lang_file F) :
  let n := S (total_files st) in
  let v := (translate (gemini E n) (content lf)
              (print (MsgTranslating (path lf)) (now st))).1 in
  (truthy float_truthy v = false →
   fs (now (body self E jars jar st lf)) = fs (now st))
  ∧ (truthy float_truthy v = true →
     ∀ f s data,
       (∀ p, save_faults E n p = None) →
       fs (now st) !! jar = Some f →
       json_dumps v = Ret s →
       Utf8.encode s = Ret data →
       fs (now (body self E jars jar st lf)) !! jar
       = Some (zip_append f (ja_jp_path_of (path lf)) data)).
Proof.
  intros n v. subst n v. unfold translate_lang_file.
  pose proof (fs_translate (gemini E (S (total_files st))) (content lf)
                (print (MsgTranslating (path lf)) (now st))) as Ht.
  destruct (translate _ _ _) as [tc w1]. simpl in Ht |- *.
  split.
  - intros ->.
    pose proof (fs_count jars (print MsgTranslateFailed w1)) as Hc.
    destruct (count _ _) as [located w3]. simpl in Hc |- *.
    destruct (_ <? _)%nat; simpl; congruence.
  - intros -> f s data Hflt Hjar Hs Hd.
    destruct (save_no_faults (save_faults E (S (total_files st)))
                jar lf tc w1 f s data Hflt) as [Hok Hfs];
      [congruence|done|done|].
    destruct (save _ _ _ _ _) as [ok w2]. simpl in Hok, Hfs. subst ok.
    pose proof (fs_count jars (print MsgDone w2)) as Hc.
    destruct (count _ _) as [located w3]. simpl in Hc |- *.
    assert (fs w3 !! jar
            = Some (zip_append f (ja_jp_path_of (path lf)) data)) as H.
    { rewrite Hc. simpl. rewrite Hfs. apply lookup_insert_eq. }
    by destruct (_ <? _)%nat.
Qed.

(** *** The payload of a reply *)

Lemma extract_payload_tagged t i :
  Py.find (str "```json") t = Some i →
  extract_payload t = Spec.block_from t (i + 7).
Proof.
  intros H. unfold extract_payload, Py.contains, Spec.block_from.
  by rewrite H.
Qed.

Lemma extract_payload_untagged t :
  Py.find (str "```json") t = None →
  extract_payload t = Spec.first_fence_payload t.
Proof.
  intros H.
  unfold extract_payload, Py.contains, Spec.first_fence_payload,
    Spec.block_from.
  rewrite H. destruct (Py.find (str "```") t) as [i|] eqn:Hi; [|done].
  by rewrite (PyFacts.find_None _ _ i H).
Qed.

(** The code agrees with the specification when the first fence of
    the reply is the one tagged [json]. *)
Lemma extract_payload_first t :
  Py.find (str "```json") t = Py.find (str "```") t →
  extract_payload t = Spec.first_fence_payload t.
Proof.
  intros H. destruct (Py.find (str "```json") t) as [i|] eqn:Hi.
  - rewrite (extract_payload_tagged t i Hi).
    unfold Spec.first_fence_payload. rewrite <- H.
    by rewrite (PyFacts.find_Some _ _ i Hi).
  - by apply extract_payload_untagged.
Qed.

(** C9 (amended).  For a non-empty reply, the text that is parsed is
    the content of the first block opened by a fence tagged [json]
    when the reply has such a fence, the content of the first fenced
    block when it has no tagged fence, and the whole reply when it has
    no fence or the fence is not closed.  When that text does not
    parse, the result is [None]. *)
Theorem C9_payload_of_reply
    (generate_content : pystr → outcome (option pystr))
    (json_data : json F) (w : world) (json_str t : pystr) :
  json_dumps json_data = Ret json_str →
  generate_content (prompt_header ++ json_str) = Ret (Some t) →
  t ≠ [] →
  (translate generate_content json_data w).1
  = match json_loads
            (match Py.find (str "```json") t with
             | Some i => Spec.block_from t (i + 7)
             | None => Spec.first_fence_payload t
             end)
    with
    | Ret v => v
    | Raise _ => JNull
    end.
Proof.
  intros Hd Hg Ht. unfold translate_json_with_gemini.
  rewrite Hd, Hg. destruct t as [|c t]; [done|]. simpl response_text.
  cbv iota beta.
  assert (extract_payload (c :: t)
          = match Py.find (str "```json") (c :: t) with
            | Some i => Spec.block_from (c :: t) (i + 7)
            | None => Spec.first_fence_payload (c :: t)
            end) as <-.
  { destruct (Py.find (str "```json") (c :: t)) as [i|] eqn:Hi.
    - by apply extract_payload_tagged.
    - by apply extract_payload_untagged. }
  by destruct (json_loads (extract_payload (c :: t))) as [v|[]].
Qed.

End Facts.

Import Examples.

(** *** Concrete runs *)

(** C1, as stated, fails: the source mapping has two keys, the reply one
    of them, and the reply is written to the archive all the same. *)
Lemma C1_counterexample :
  let source := JDict [(str "item.sword", JStr (str "Sword"));
                       (str "item.axe", JStr (str "Axe"))] in
  let w := run env_one_key [jar_a] fs_two_keys in
  Ref.loads sword_axe = Ret source
  ∧ (translate_json_with_gemini Ref.loads Ref.dumps header
       (gemini env_one_key 1) source (world_of fs_two_keys)).1 = v_ken
  ∧ ¬ (Spec.same_key_set source v_ken = false →
       fs w !! jar_a = fs_two_keys !! jar_a).
Proof.
  split; [by vm_compute|]. split; [by vm_compute|]. intros H.
  assert (Hk : Spec.same_key_set
                 (JDict [(str "item.sword", JStr (str "Sword"));
                         (str "item.axe", JStr (str "Axe"))] : Ref.value)
                 v_ken = false) by by vm_compute.
  specialize (H Hk). vm_compute in H. discriminate H.
Qed.

Lemma C1_witness :
  let st := {| total_files := 0; successful_translations := 0;
               now := world_of fs_two_keys |} in
  let lf := {| path := en_us_m1;
               content := JDict [(str "item.sword", JStr (str "Sword"));
                                 (str "item.axe", JStr (str "Axe"))];
               mod_id := str "m1"; lang_code := str "en_us" |} in
  fs (now (translate_lang_file Ref.float_truthy Ref.loads Ref.dumps header
             self env_one_key [jar_a] jar_a st lf)) !! jar_a
  = Some (zip_append (archive [member en_us_m1 sword_axe]) ja_jp_m1
            (utf8 (Ref.dump 0 v_ken))).
Proof.
  intros st lf.
  refine (proj2 (C1_acceptance_ignores_keys Ref.float_truthy Ref.loads
                   Ref.dumps header self env_one_key [jar_a] jar_a st lf)
            _ _ _ _ _ _ _ _); reflexivity.
Defined.

(** C2, as stated, fails: the archive has been replaced when the removal
    of the temporary directory fails, and the call reports a failure. *)
Lemma C2_counterexample :
  let w := world_of fs_sword in
  let r := save_translated_json_to_jar Ref.dumps cleanup_fails
             jar_a lf_sword v_ken w in
  ¬ (r.1 = false → fs r.2 !! jar_a = fs w !! jar_a).
Proof. intros w r H. specialize (H eq_refl). vm_compute in H. discriminate H. Qed.

Lemma C2_witness :
  let w := world_of fs_sword in
  let r := save_translated_json_to_jar Ref.dumps copy_fails
             jar_a lf_sword v_ken w in
  r.1 = false ∧ fs r.2 !! jar_a = fs w !! jar_a.
Proof.
  intros w r. split; [reflexivity|].
  apply (C2_failure_before_replacement Ref.float_truthy Ref.loads Ref.dumps
           header copy_fails jar_a lf_sword v_ken w);
    reflexivity.
Defined.

Lemma C3_witness :
  let w0 := world_of fs_sword in
  let w1 := (save_translated_json_to_jar Ref.dumps no_faults
               jar_a lf_sword v_ken w0).2 in
  let w2 := (save_translated_json_to_jar Ref.dumps no_faults
               jar_a lf_sword v_ken w1).2 in
  fs w0 !! backup_path_of jar_a = None
  ∧ fs w2 !! backup_path_of jar_a = Some (archive [member en_us_m1 sword]).
Proof.
  intros w0 w1 w2. split; [reflexivity|].
  apply (C3_backup_is_pristine Ref.dumps jar_a
           (archive [member en_us_m1 sword]) 2 w0 w2).
  - reflexivity.
  - reflexivity.
  - lia.
  - apply (mutations_save Ref.dumps jar_a 1 w0 w1 w2
             no_faults lf_sword v_ken); [reflexivity|].
    apply (mutations_save Ref.dumps jar_a 0 w1 w2 w2
             no_faults lf_sword v_ken); [reflexivity|].
    by apply mutations_done.
Defined.


(** C9, as stated, fails: the reply has an untagged block and then a
    block tagged [json]; the second one is parsed, not the first. *)
Lemma C9_counterexample :
  let r := translate_json_with_gemini Ref.loads Ref.dumps header
             (λ _, Ret (Some two_blocks)) (JDict []) (world_of ∅) in
  Ref.loads (Spec.first_fence_payload two_blocks)
    = Ret (JDict [(str "a", JInt 1)])
  ∧ r.1 = JDict [(str "b", JInt 2)]
  ∧ ¬ (r.1 = match Ref.loads (Spec.first_fence_payload two_blocks) with
             | Ret v => v
             | Raise _ => JNull
             end).
Proof. vm_compute. split; [done|]. split; [done|]. intros H. discriminate H. Qed.

Lemma C9_witness :
  (translate_json_with_gemini Ref.loads Ref.dumps header
     (λ _, Ret (Some one_block)) (JDict []) (world_of ∅)).1
  = v_ken.
Proof.
  rewrite (C9_payload_of_reply Ref.loads Ref.dumps header
             (λ _, Ret (Some one_block)) (JDict []) (world_of ∅)
             (str "{}") one_block); [reflexivity..|discriminate].
Defined.

(** C5 (failing inputs).  A name in upper case matches the pattern of
    the translating locator, and the derived path is the original path
    itself; a namespace that is called [en_us.json] is renamed as
    well. *)
Theorem C5_derived_path_failures :
  Re.lang_pattern_en_us en_us_upper = true
  ∧ ja_jp_path_of en_us_upper = en_us_upper
  ∧ Re.lang_pattern_en_us en_us_twice = true
  ∧ ja_jp_path_of en_us_twice = str "assets/ja_jp.json/lang/ja_jp.json"
  ∧ ja_jp_path_of en_us_m1 = ja_jp_m1.
Proof. by vm_compute. Qed.

End AdvanceFacts.
(** ** The delay between requests *)

Module PacingFacts.

Import TranslatorAdvance Mutator AdvanceFacts.

Section Facts.

Context {F : Type}.
Variable float_truthy : F → bool.
Variable json_loads : pystr → outcome (json F).
Variable json_dumps : json F → outcome pystr.
Variable prompt_header : pystr.

Abbreviation save := (save_translated_json_to_jar json_dumps).
Abbreviation find := (find_language_files_in_jar json_loads).
Abbreviation count := (count_language_files json_loads).
Abbreviation translate :=
  (translate_json_with_gemini json_loads json_dumps prompt_header).
Abbreviation body :=
  (translate_lang_file float_truthy json_loads json_dumps prompt_header).
Abbreviation loop :=
  (translate_jars float_truthy json_loads json_dumps prompt_header).

(** *** Counting the located entries *)

Abbreviation located_in := (Mutator.located_in json_loads).
Abbreviation located_total := (Mutator.located_total json_loads).









(** *** The phase of the trace *)

Abbreviation phase d w := (Spec.paced d Spec.Rested (out w)).










(** *** One entry *)



(** *** The loops *)




End Facts.

Import Examples.



(** The hypothesis on the move is needed.  When the move back fails
    part-way the archive is left truncated, the recount finds no entry
    in it, no delay is taken, and the request for the next entry
    follows at once. *)
Example no_delay_after_broken_move :
  let tr := out (run env_move_breaks [jar_a] fs_two_mods) in
  Spec.calls tr
    = [Request (header ++ Ref.dump 0 (content lf_sword));
       Request (header ++ Ref.dump 0 (content lf_sword))]
  ∧ Spec.delay_between_requests 1 tr = false.
Proof. by vm_compute. Qed.

End PacingFacts.

(** ** The scenarios of the specification *)

Module Scenarios.

Import TranslatorAdvance Examples.

(** Scenario 1: the archive gets the entry [assets/m1/lang/ja_jp.json]
    with the mapping the service returned, and the backup is the archive
    as it was. *)
Example scenario_1 :
  let w := run env_ken [jar_a] fs_sword in
  fs w !! jar_a
    = Some (archive [member en_us_m1 sword;
                     member ja_jp_m1 (Ref.dump 0 v_ken)])
  ∧ Ref.loads (Ref.dump 0 v_ken) = Ret v_ken
  ∧ fs w !! backup_path_of jar_a = fs_sword !! jar_a
  ∧ last (out w) = Some (Print (MsgSummary 1 1)).
Proof. by vm_compute. Qed.

(** Scenario 3: a file that is not an archive is reported, yields
    nothing, and the run goes on with the next archive. *)
Example scenario_3 :
  let w := run env_ken [jar_a; jar_b] fs_corrupt in
  (find_language_files_in_jar Ref.loads jar_a (world_of fs_corrupt)).1 = []
  ∧ Print (MsgNotAJar jar_a) ∈ out w
  ∧ fs w !! jar_a = fs_corrupt !! jar_a
  ∧ fs w !! jar_b
    = Some (archive [member en_us_m1 sword;
                     member ja_jp_m1 (Ref.dump 0 v_ken)])
  ∧ last (out w) = Some (Print (MsgSummary 1 1)).
Proof.
  split; [by vm_compute|]. split; [|by vm_compute].
  vm_compute. apply list_elem_of_further, list_elem_of_further,
    list_elem_of_further, list_elem_of_here.
Qed.

(** An archive without language entries yields nothing. *)
Example no_matching_entry :
  (find_language_files_in_jar Ref.loads jar_a
     (world_of {[ jar_a := archive [member (str "META-INF/MANIFEST.MF") sword;
                                    member (str "assets/m1/lang/ja_jp.json")
                                      sword] ]})).1
  = [].
Proof. by vm_compute. Qed.

(** The namespace and the language code of a path. *)
Example extract_examples :
  extract_mod_id (str "assets/foo/lang/en_us.json") = str "foo"
  ∧ extract_mod_id (str "assets//lang") = str "unknown"
  ∧ extract_mod_id (str "assets/foo") = str "unknown"
  ∧ extract_lang_code (str "assets/foo/lang/en_us.json") = str "en_us".
Proof. by vm_compute. Qed.

End Scenarios.

(** ** The namespace and the language code of a path *)

Module PathFacts.

Import Py.

Lemma split_no_sep (sep : N) (a : pystr) :
  sep ∉ a → split sep a = [a].
Proof.
  induction a as [|c a IH]; intros H; simpl; [done|].
  apply not_elem_of_cons in H as [Hc Ha].
  destruct (N.eqb_spec c sep) as [->|_]; [done|].
  by rewrite IH.
Qed.

Lemma split_app_sep (sep : N) (a r : pystr) :
  sep ∉ a → split sep (a ++ sep :: r) = a :: split sep r.
Proof.
  induction a as [|c a IH]; intros H; simpl.
  - by rewrite N.eqb_refl.
  - apply not_elem_of_cons in H as [Hc Ha].
    destruct (N.eqb_spec c sep) as [->|_]; [done|].
    by rewrite IH.
Qed.

Lemma split_not_nil (sep : N) (s : pystr) : split sep s ≠ [].
Proof.
  destruct s as [|c s]; simpl; [done|].
  destruct (c =? sep); [done|]. by destruct (split sep s).
Qed.

Lemma startswith_single_cons (c d : N) (s : pystr) :
  startswith (d :: s) [c] = (c =? d).
Proof. unfold startswith. simpl. by destruct (c =? d). Qed.

Lemma find_single_absent (c : N) (a : pystr) :
  c ∉ a → find [c] a = None.
Proof.
  induction a as [|d a IH]; intros H; [done|].
  apply not_elem_of_cons in H as [Hc Ha].
  cbn [find]. rewrite startswith_single_cons.
  destruct (N.eqb_spec c d) as [->|_]; [done|].
  by rewrite IH.
Qed.

Lemma find_single_first (c : N) (a r : pystr) :
  c ∉ a → find [c] (a ++ c :: r) = Some (length a).
Proof.
  induction a as [|d a IH]; intros H.
  - cbn [app find]. by rewrite startswith_single_cons, N.eqb_refl.
  - apply not_elem_of_cons in H as [Hc Ha].
    cbn [app find]. rewrite startswith_single_cons.
    destruct (N.eqb_spec c d) as [->|_]; [done|].
    by rewrite IH.
Qed.

(** The last occurrence of a character. *)
Lemma rfind_char_last (c : N) (a r : pystr) :
  c ∉ r → rfind_char c (a ++ c :: r) = Some (length a).
Proof.
  intros H. unfold rfind_char.
  rewrite rev_app_distr. simpl. rewrite <- app_assoc. simpl.
  rewrite find_single_first.
  - f_equal. rewrite length_rev, length_app. simpl. lia.
  - intros Hin. apply H, list_elem_of_In, in_rev. by apply list_elem_of_In.
Qed.

Lemma rfind_char_absent (c : N) (a : pystr) :
  c ∉ a → rfind_char c a = None.
Proof.
  intros H. unfold rfind_char. rewrite find_single_absent; [done|].
  intros Hin. apply H, list_elem_of_In, in_rev. by apply list_elem_of_In.
Qed.

Lemma basename_after_slash (dir name : pystr) :
  47 ∉ name → basename (dir ++ 47 :: name) = name.
Proof.
  intros H. unfold basename. rewrite rfind_char_last by done.
  replace (dir ++ 47 :: name) with ((dir ++ [47]) ++ name)
    by by rewrite <- app_assoc.
  apply drop_app_length'. rewrite length_app. simpl. lia.
Qed.

Lemma basename_no_slash (name : pystr) :
  47 ∉ name → basename name = name.
Proof. intros H. unfold basename. by rewrite rfind_char_absent. Qed.

Lemma existsb_not_dot (s : pystr) :
  existsb (λ c, negb (c =? 46)) s = true ↔ ∃ c, c ∈ s ∧ c ≠ 46.
Proof.
  rewrite existsb_exists. split.
  - intros (c & Hin & Hc). exists c. split; [by apply list_elem_of_In|].
    apply negb_true_iff, N.eqb_neq in Hc. done.
  - intros (c & Hin & Hc). exists c. split; [by apply list_elem_of_In|].
    by apply negb_true_iff, N.eqb_neq.
Qed.

Lemma extract_mod_id_second (root ns rest : pystr) :
  47 ∉ root →
  47 ∉ ns →
  extract_mod_id (root ++ 47 :: ns ++ 47 :: rest)
  = match ns with [] => str "unknown" | _ => ns end.
Proof.
  intros Hroot Hns. unfold extract_mod_id.
  rewrite split_app_sep, split_app_sep by done.
  pose proof (split_not_nil 47 rest) as Hnn.
  destruct (split 47 rest) as [|x xs]; [done|].
  unfold pystr_eqb. by destruct ns; case_bool_decide.
Qed.

Lemma splitext_root_stem (stem ext : pystr) :
  46 ∉ ext →
  splitext_root (stem ++ 46 :: ext)
  = if existsb (λ c, negb (c =? 46)) stem then stem else stem ++ 46 :: ext.
Proof.
  intros Hdot. unfold splitext_root. rewrite rfind_char_last by done.
  by rewrite take_app_length.
Qed.

Lemma extract_lang_code_stem (dir stem ext : pystr) :
  47 ∉ stem →
  47 ∉ ext →
  46 ∉ ext →
  extract_lang_code (dir ++ 47 :: stem ++ 46 :: ext)
  = if existsb (λ c, negb (c =? 46)) stem then stem else stem ++ 46 :: ext.
Proof.
  intros Hstem Hext Hdot.
  assert (Hname : 47 ∉ stem ++ 46 :: ext).
  { rewrite elem_of_app, elem_of_cons. intros [?|[?|?]]; done. }
  unfold extract_lang_code.
  by rewrite basename_after_slash, splitext_root_stem.
Qed.

(** X1.  [extract_mod_id] returns the second segment of the path when the
    path has at least three segments and that segment is not empty, and
    ["unknown"] otherwise: for an empty second segment, for a path of two
    segments and for a path of one. *)
Theorem X1_extract_mod_id_segments (root ns rest : pystr) :
  47 ∉ root →
  47 ∉ ns →
  extract_mod_id (root ++ 47 :: ns ++ 47 :: rest)
    = match ns with [] => str "unknown" | _ => ns end
  ∧ extract_mod_id (root ++ 47 :: ns) = str "unknown"
  ∧ extract_mod_id root = str "unknown".
Proof.
  intros Hroot Hns. split; [by apply extract_mod_id_second|].
  unfold extract_mod_id. split.
  - by rewrite split_app_sep, split_no_sep.
  - by rewrite split_no_sep.
Qed.

(** X2.  [extract_lang_code] returns the file name without its last
    extension: what lies between the last slash and the last dot.  A file
    name with nothing but dots before its last dot is returned whole, and
    so is a file name without a dot. *)
Theorem X2_extract_lang_code_stem (dir stem ext : pystr) :
  47 ∉ stem →
  47 ∉ ext →
  46 ∉ ext →
  extract_lang_code (dir ++ 47 :: stem ++ 46 :: ext)
    = (if existsb (λ c, negb (c =? 46)) stem
       then stem else stem ++ 46 :: ext)
  ∧ extract_lang_code (stem ++ 46 :: ext)
    = (if existsb (λ c, negb (c =? 46)) stem
       then stem else stem ++ 46 :: ext)
  ∧ extract_lang_code (dir ++ 47 :: ext) = ext.
Proof.
  intros Hstem Hext Hdot.
  assert (Hname : 47 ∉ stem ++ 46 :: ext).
  { rewrite elem_of_app, elem_of_cons. intros [?|[?|?]]; done. }
  split; [by apply extract_lang_code_stem|].
  unfold extract_lang_code. split.
  - by rewrite basename_no_slash, splitext_root_stem.
  - rewrite basename_after_slash by done.
    unfold splitext_root. by rewrite rfind_char_absent.
Qed.

Lemma not_in_str (c : N) (s : pystr) :
  forallb (λ d, negb (d =? c)) s = true → c ∉ s.
Proof.
  intros H Hin. rewrite forallb_forall in H.
  apply list_elem_of_In, H in Hin. by rewrite N.eqb_refl in Hin.
Qed.

Lemma X1_witness :
  extract_mod_id (str "assets/foo/lang/en_us.json") = str "foo"
  ∧ extract_mod_id (str "assets/foo") = str "unknown"
  ∧ extract_mod_id (str "assets") = str "unknown".
Proof.
  apply (X1_extract_mod_id_segments (str "assets") (str "foo")
           (str "lang/en_us.json")); by apply not_in_str.
Defined.

Lemma X2_witness :
  extract_lang_code (str "assets/foo/lang/en_us.json") = str "en_us"
  ∧ extract_lang_code (str "en_us.json") = str "en_us"
  ∧ extract_lang_code (str "assets/foo/lang/json") = str "json".
Proof.
  apply (X2_extract_lang_code_stem (str "assets/foo/lang") (str "en_us")
           (str "json")); by apply not_in_str.
Defined.

End PathFacts.

(** ** The patterns and the fields of the paths they accept *)

Module ShapeFacts.

Import Re Shape PathFacts.

Lemma ilit_prefix_spec p s r :
  ilit_prefix p s = Some r ↔ ∃ q, s = q ++ r ∧ ieq p q.
Proof.
  revert s. induction p as [|a p IH]; intros s; simpl.
  - split.
    + intros [= ->]. exists []. split; [done|constructor].
    + intros (q & -> & Hq). by apply Forall2_nil_inv_l in Hq as ->.
  - destruct s as [|b s].
    + split; [done|]. intros (q & Hs & Hq).
      apply Forall2_cons_inv_l in Hq as (b & q' & _ & _ & ->). done.
    + destruct (ichar a b) eqn:Hab.
      * rewrite IH. split.
        -- intros (q & -> & Hq). exists (b :: q). split; [done|].
           by constructor.
        -- intros (q & Hs & Hq).
           apply Forall2_cons_inv_l in Hq as (b' & q' & _ & Hq' & ->).
           injection Hs as <- ->. by exists q'.
      * split; [done|]. intros (q & Hs & Hq).
        apply Forall2_cons_inv_l in Hq as (b' & q' & Hab' & _ & ->).
        injection Hs as <- ->. congruence.
Qed.

Lemma ilit_spec p k s :
  ilit p k s = true ↔ ∃ q r, s = q ++ r ∧ ieq p q ∧ k r = true.
Proof.
  unfold ilit. destruct (ilit_prefix p s) as [r|] eqn:Hr.
  - apply ilit_prefix_spec in Hr as (q & -> & Hq). split.
    + intros Hk. by exists q, r.
    + intros (q' & r' & Hs & Hq' & Hk).
      assert (length q' = length q) as Hlen.
      { apply Forall2_length in Hq, Hq'. congruence. }
      apply app_inj_1 in Hs as [_ ->]; done.
  - split; [done|]. intros (q & r & -> & Hq & _).
    assert (ilit_prefix p (q ++ r) = Some r) as H
      by (apply ilit_prefix_spec; by exists q).
    congruence.
Qed.

Lemma not_slash_plus_spec k s :
  not_slash_plus k s = true ↔ ∃ q r, s = q ++ r ∧ segment q ∧ k r = true.
Proof.
  induction s as [|c s IH]; simpl.
  - split; [done|]. intros (q & r & Hs & [Hq _] & _).
    symmetry in Hs. by apply app_eq_nil in Hs as [-> _].
  - destruct (N.eqb_spec c 47) as [->|Hc]; simpl.
    + split; [done|]. intros (q & r & Hs & [Hq Hno] & _).
      destruct q as [|d q]; [done|]. injection Hs as <- _.
      exfalso. apply Hno, list_elem_of_here.
    + rewrite orb_true_iff, IH. split.
      * intros [Hk|(q & r & -> & [Hq Hno] & Hk)].
        -- exists [c], s. split; [done|]. split; [|done].
           split; [done|]. intros Heq%list_elem_of_singleton. congruence.
        -- exists (c :: q), r. split; [done|]. split; [|done].
           split; [done|]. intros [Heq|?]%elem_of_cons; [congruence|done].
      * intros (q & r & Hs & [Hq Hno] & Hk).
        destruct q as [|d q]; [done|]. injection Hs as <- ->.
        destruct q as [|d' q].
        -- by left.
        -- right. exists (d' :: q), r. split; [done|]. split; [|done].
           split; [done|]. intros Hin. apply Hno. by right.
Qed.

Lemma eos_spec s : eos s = true ↔ line_end s.
Proof.
  unfold line_end. destruct s as [|c [|d s]]; simpl.
  - split; [by left|done].
  - rewrite N.eqb_eq. split; [intros ->; by right|].
    by intros [?|[= ->]].
  - split; [done|]. by intros [?|?].
Qed.

(** *** Separators and letters *)

(** Under [re.IGNORECASE] a dot or a slash is matched by itself only,
    and matches nothing else. *)
Lemma ichar_sep (a c x : N) :
  ichar a c = true → x = 46 ∨ x = 47 → (c = x ↔ a = x).
Proof.
  unfold ichar, ascii_lower, is_ascii_upper, is_ascii_lower.
  intros H Hx.
  destruct ((65 <=? a) && (a <=? 90)) eqn:Hup;
    rewrite ?andb_true_iff, ?andb_false_iff, ?N.leb_le, ?N.leb_gt in Hup;
    repeat rewrite ?orb_true_iff, ?andb_true_iff, ?N.eqb_eq, ?N.leb_le in H;
    lia.
Qed.

Lemma ieq_sep (lit s : pystr) (x : N) :
  ieq lit s → x = 46 ∨ x = 47 → x ∉ lit → x ∉ s.
Proof.
  intros H Hx. induction H as [|a c lit s Hac _ IH]; [done|].
  rewrite !not_elem_of_cons. intros [Ha Hlit]. split; [|by apply IH].
  intros ->. apply Ha. symmetry. by apply (ichar_sep a c c Hac).
Qed.

Lemma ieq_app_inv (l1 l2 s : pystr) :
  ieq (l1 ++ l2) s → ∃ s1 s2, s = s1 ++ s2 ∧ ieq l1 s1 ∧ ieq l2 s2.
Proof.
  intros (s1 & s2 & H1 & H2 & ->)%Forall2_app_inv_l. by exists s1, s2.
Qed.

Lemma ieq_sep_head (x : N) (lit s : pystr) :
  x = 46 ∨ x = 47 → ieq (x :: lit) s → ∃ s', s = x :: s' ∧ ieq lit s'.
Proof.
  intros Hx (c & s' & Hc & Hs & ->)%Forall2_cons_inv_l.
  exists s'. split; [|done]. f_equal. by apply (ichar_sep x c x Hc).
Qed.

Lemma root_no_slash (root : pystr) :
  ieq (str "assets") root ∨ ieq (str "data") root → 47 ∉ root.
Proof.
  intros [H|H]; (eapply ieq_sep; [exact H|by right|by apply not_in_str]).
Qed.

(** *** The fields of an accepted path *)

(** The separators of an accepted path: the slashes around [lang] and
    the dot of the extension are there as such, and neither the root nor
    what follows the dot holds another one. *)
Lemma parts_any_separators (p root ns lang name ext tail : pystr) :
  parts_any p root ns lang name ext tail →
  ∃ l4 e4,
    lang = 47 :: l4 ++ [47]
    ∧ ext = 46 :: e4
    ∧ (47 ∉ root)
    ∧ (46 ∉ e4 ++ tail)
    ∧ (47 ∉ e4 ++ tail).
Proof.
  intros (_ & Hroot & _ & Hlang & _ & Hext & Htail).
  apply root_no_slash in Hroot.
  change (str "/lang/") with (47 :: str "lang" ++ [47]) in Hlang.
  apply ieq_sep_head in Hlang as (l' & -> & Hlang); [|by right].
  apply ieq_app_inv in Hlang as (l4 & sl & -> & Hl4 & Hsl).
  apply ieq_sep_head in Hsl as (nil' & -> & Hnil); [|by right].
  apply Forall2_nil_inv_l in Hnil as ->.
  change (str ".json") with (46 :: str "json") in Hext.
  apply ieq_sep_head in Hext as (e4 & -> & He4); [|by left].
  exists l4, e4. split; [done|]. split; [done|]. split; [done|].
  rewrite !elem_of_app.
  pose proof (ieq_sep _ _ 46 He4 (or_introl eq_refl)
                (not_in_str 46 (str "json") eq_refl)).
  pose proof (ieq_sep _ _ 47 He4 (or_intror eq_refl)
                (not_in_str 47 (str "json") eq_refl)).
  assert ((46 ∉ tail) ∧ (47 ∉ tail)) as [? ?]
    by (destruct Htail as [->| ->]; split; by apply not_in_str).
  split; intros [?|?]; done.
Qed.

Lemma fields_of_path (root ns l4 name e4 tail : pystr) :
  47 ∉ root →
  ns ≠ [] →
  47 ∉ ns →
  47 ∉ name →
  46 ∉ e4 ++ tail →
  47 ∉ e4 ++ tail →
  let p := root ++ [47] ++ ns ++ (47 :: l4 ++ [47]) ++ name
           ++ (46 :: e4) ++ tail in
  extract_mod_id p = ns
  ∧ extract_lang_code p
    = if existsb (λ c, negb (c =? 46)) name
      then name else name ++ (46 :: e4) ++ tail.
Proof.
  intros Hroot Hns0 Hns Hname Hdot Hsl p. subst p. split.
  - simpl. rewrite <- !app_assoc. simpl.
    rewrite extract_mod_id_second by done. by destruct ns.
  - replace (root ++ [47] ++ ns ++ (47 :: l4 ++ [47]) ++ name
             ++ (46 :: e4) ++ tail)
      with ((root ++ [47] ++ ns ++ 47 :: l4) ++ 47 :: name
            ++ 46 :: e4 ++ tail)
      by (simpl; rewrite <- !app_assoc; simpl;
          by rewrite <- !app_assoc).
    by rewrite extract_lang_code_stem.
Qed.

(** A path of the translating locator is a path of the discovery scan
    whose name is [en_us], letter case apart. *)
Lemma parts_en_us_any (p root ns file tail : pystr) :
  parts_en_us p root ns file tail →
  ∃ lang name ext,
    file = lang ++ name ++ ext
    ∧ parts_any p root ns lang name ext tail
    ∧ ieq (str "en_us") name.
Proof.
  intros (-> & Hroot & Hns & Hfile & Htail).
  change (str "/lang/en_us.json")
    with (str "/lang/" ++ str "en_us" ++ str ".json") in Hfile.
  apply ieq_app_inv in Hfile as (lang & r & -> & Hlang & Hr).
  apply ieq_app_inv in Hr as (name & ext & -> & Hname & Hext).
  exists lang, name, ext. split; [done|]. split; [|done].
  split; [by rewrite <- !app_assoc|].
  split; [done|]. split; [done|]. split; [done|]. split; [|done]. split.
  - intros ->. unfold ieq in Hname. by apply Forall2_nil_inv_r in Hname.
  - eapply ieq_sep; [exact Hname|by right|by apply not_in_str].
Qed.

(** *** The translating pattern is a case of the discovery pattern *)

Lemma ilit_mono (lit : pystr) (k k' : pystr → bool) (s : pystr) :
  (∀ r, k r = true → k' r = true) →
  ilit lit k s = true → ilit lit k' s = true.
Proof.
  intros Hk. unfold ilit. destruct (ilit_prefix lit s); [apply Hk|done].
Qed.

Lemma not_slash_plus_mono (k k' : pystr → bool) (s : pystr) :
  (∀ r, k r = true → k' r = true) →
  not_slash_plus k s = true → not_slash_plus k' s = true.
Proof.
  intros Hk. induction s as [|c s IH]; simpl; [done|].
  rewrite !andb_true_iff, !orb_true_iff. intros [Hc [H|H]].
  - split; [done|]. left. by apply Hk.
  - split; [done|]. right. by apply IH.
Qed.

(** [/lang/en_us.json] is [/lang/], a name and [.json]. *)
Lemma en_us_file_is_any (s : pystr) :
  ilit (str "/lang/en_us.json") eos s = true →
  ilit (str "/lang/") (not_slash_plus (ilit (str ".json") eos)) s = true.
Proof.
  intros (file & tail & -> & Hfile & Htail)%ilit_spec.
  change (str "/lang/en_us.json")
    with (str "/lang/" ++ str "en_us" ++ str ".json") in Hfile.
  apply ieq_app_inv in Hfile as (lang & r & -> & Hlang & Hr).
  apply ieq_app_inv in Hr as (name & ext & -> & Hname & Hext).
  apply ilit_spec. exists lang, ((name ++ ext) ++ tail).
  split; [by rewrite <- !app_assoc|]. split; [done|].
  apply not_slash_plus_spec. exists name, (ext ++ tail).
  split; [by rewrite <- app_assoc|]. split.
  - split.
    + intros ->. unfold ieq in Hname. by apply Forall2_nil_inv_r in Hname.
    + eapply ieq_sep; [exact Hname|by right|by apply not_in_str].
  - apply ilit_spec. by exists ext, tail.
Qed.

Lemma en_us_is_any (p : pystr) :
  lang_pattern_en_us p = true → lang_pattern_any p = true.
Proof.
  unfold lang_pattern_en_us, lang_pattern_any, alt.
  rewrite !orb_true_iff.
  assert (∀ r,
            ilit (str "/")
              (not_slash_plus (ilit (str "/lang/en_us.json") eos)) r = true →
            ilit (str "/")
              (not_slash_plus
                 (ilit (str "/lang/")
                    (not_slash_plus (ilit (str ".json") eos)))) r = true)
    as Hrest.
  { intros r. apply ilit_mono. intros r1. apply not_slash_plus_mono.
    apply en_us_file_is_any. }
  intros [H|H]; [left|right]; revert H; by apply ilit_mono.
Qed.

(** X3.  The pattern of the discovery scan accepts exactly the paths of
    the form [root/namespace/lang/name.json], where [root] is [assets] or
    [data], the namespace and the name are non-empty and free of slashes,
    letter case is ignored, and one line feed may follow. *)
Theorem X3_discovery_pattern_shape (p : pystr) :
  lang_pattern_any p = true
  ↔ ∃ root ns lang name ext tail, parts_any p root ns lang name ext tail.
Proof.
  unfold lang_pattern_any, alt, parts_any.
  rewrite orb_true_iff, !ilit_spec. split.
  - intros H.
    assert (∃ root r, p = root ++ r
              ∧ (ieq (str "assets") root ∨ ieq (str "data") root)
              ∧ ilit (str "/")
                  (not_slash_plus
                     (ilit (str "/lang/")
                        (not_slash_plus (ilit (str ".json") eos)))) r = true)
      as (root & r & -> & Hroot & Hr).
    { destruct H as [(q & r & -> & Hq & Hr)|(q & r & -> & Hq & Hr)];
        exists q, r; auto. }
    apply ilit_spec in Hr as (sl & r1 & -> & Hsl & Hr).
    apply Forall2_cons_inv_l in Hsl as (b & sl' & Hb & Hnil & ->).
    apply Forall2_nil_inv_l in Hnil as ->.
    assert (b = 47) as ->.
    { revert Hb. unfold ichar. simpl.
      rewrite !orb_false_r. by intros ->%N.eqb_eq. }
    apply not_slash_plus_spec in Hr as (ns & r2 & -> & Hns & Hr).
    apply ilit_spec in Hr as (lang & r3 & -> & Hlang & Hr).
    apply not_slash_plus_spec in Hr as (name & r4 & -> & Hname & Hr).
    apply ilit_spec in Hr as (ext & tail & -> & Hext & Htail).
    apply eos_spec in Htail.
    by exists root, ns, lang, name, ext, tail.
  - intros (root & ns & lang & name & ext & tail
            & -> & Hroot & Hns & Hlang & Hname & Hext & Htail).
    assert (ilit (str "/")
              (not_slash_plus
                 (ilit (str "/lang/")
                    (not_slash_plus (ilit (str ".json") eos))))
              ([47] ++ ns ++ lang ++ name ++ ext ++ tail) = true) as Hr.
    { apply ilit_spec. exists [47], (ns ++ lang ++ name ++ ext ++ tail).
      split; [done|]. split; [by repeat constructor|].
      apply not_slash_plus_spec. exists ns, (lang ++ name ++ ext ++ tail).
      split; [done|]. split; [done|].
      apply ilit_spec. exists lang, (name ++ ext ++ tail).
      split; [done|]. split; [done|].
      apply not_slash_plus_spec. exists name, (ext ++ tail).
      split; [done|]. split; [done|].
      apply ilit_spec. exists ext, tail.
      split; [done|]. split; [done|]. by apply eos_spec. }
    destruct Hroot as [Hroot|Hroot]; [left|right];
      by exists root, ([47] ++ ns ++ lang ++ name ++ ext ++ tail).
Qed.

(** X4.  The pattern of the translating locator accepts exactly the
    paths of the form [root/namespace/lang/en_us.json], under the same
    conventions. *)
Theorem X4_translation_pattern_shape (p : pystr) :
  lang_pattern_en_us p = true
  ↔ ∃ root ns file tail, parts_en_us p root ns file tail.
Proof.
  unfold lang_pattern_en_us, alt, parts_en_us.
  rewrite orb_true_iff, !ilit_spec. split.
  - intros H.
    assert (∃ root r, p = root ++ r
              ∧ (ieq (str "assets") root ∨ ieq (str "data") root)
              ∧ ilit (str "/")
                  (not_slash_plus (ilit (str "/lang/en_us.json") eos)) r
                = true)
      as (root & r & -> & Hroot & Hr).
    { destruct H as [(q & r & -> & Hq & Hr)|(q & r & -> & Hq & Hr)];
        exists q, r; auto. }
    apply ilit_spec in Hr as (sl & r1 & -> & Hsl & Hr).
    apply Forall2_cons_inv_l in Hsl as (b & sl' & Hb & Hnil & ->).
    apply Forall2_nil_inv_l in Hnil as ->.
    assert (b = 47) as ->.
    { revert Hb. unfold ichar. simpl.
      rewrite !orb_false_r. by intros ->%N.eqb_eq. }
    apply not_slash_plus_spec in Hr as (ns & r2 & -> & Hns & Hr).
    apply ilit_spec in Hr as (file & tail & -> & Hfile & Htail).
    apply eos_spec in Htail.
    by exists root, ns, file, tail.
  - intros (root & ns & file & tail & -> & Hroot & Hns & Hfile & Htail).
    assert (ilit (str "/")
              (not_slash_plus (ilit (str "/lang/en_us.json") eos))
              ([47] ++ ns ++ file ++ tail) = true) as Hr.
    { apply ilit_spec. exists [47], (ns ++ file ++ tail).
      split; [done|]. split; [by repeat constructor|].
      apply not_slash_plus_spec. exists ns, (file ++ tail).
      split; [done|]. split; [done|].
      apply ilit_spec. exists file, tail.
      split; [done|]. split; [done|]. by apply eos_spec. }
    destruct Hroot as [Hroot|Hroot]; [left|right];
      by exists root, ([47] ++ ns ++ file ++ tail).
Qed.

(** X5.  For a path the discovery scan accepts, [extract_mod_id] is the
    namespace segment and [extract_lang_code] is the name before
    [.json], unless the name consists of dots only, in which case the
    whole file name is returned. *)
Theorem X5_fields_of_discovered_path
    (p root ns lang name ext tail : pystr) :
  parts_any p root ns lang name ext tail →
  extract_mod_id p = ns
  ∧ extract_lang_code p
    = if existsb (λ c, negb (c =? 46)) name
      then name else name ++ ext ++ tail.
Proof.
  intros H.
  destruct (parts_any_separators _ _ _ _ _ _ _ H)
    as (l4 & e4 & -> & -> & Hroot & Hdot & Hsl).
  destruct H as (-> & _ & [Hns0 Hns] & _ & [_ Hname] & _).
  by apply fields_of_path.
Qed.

(** X6.  For a path the translating locator accepts, [extract_mod_id]
    is the namespace segment and [extract_lang_code] is [en_us], letter
    case apart. *)
Theorem X6_fields_of_reference_path (p root ns file tail : pystr) :
  parts_en_us p root ns file tail →
  extract_mod_id p = ns ∧ ieq (str "en_us") (extract_lang_code p).
Proof.
  intros (lang & name & ext & _ & H & Hname)%parts_en_us_any.
  destruct (parts_any_separators _ _ _ _ _ _ _ H)
    as (l4 & e4 & -> & -> & Hroot & Hdot & Hsl).
  destruct H as (-> & _ & [Hns0 Hns] & _ & [_ Hnosl] & _).
  destruct (fields_of_path root ns l4 name e4 tail) as [-> ->];
    [done..|].
  split; [done|].
  assert (existsb (λ c, negb (c =? 46)) name = true) as ->; [|done].
  apply existsb_not_dot.
  apply Forall2_cons_inv_l in Hname as (c & name' & Hc & _ & ->).
  exists c. split; [apply list_elem_of_here|].
  intros ->.
  pose proof (proj1 (ichar_sep _ _ 46 Hc (or_introl eq_refl)) eq_refl) as He.
  vm_compute in He. discriminate He.
Qed.

Ltac ieq_literal := unfold ieq; repeat constructor.

Lemma X5_witness :
  let p := str "DATA/My_Mod/LANG/Fr_FR.JSON" ++ [10] in
  extract_mod_id p = str "My_Mod" ∧ extract_lang_code p = str "Fr_FR".
Proof.
  apply (X5_fields_of_discovered_path _ (str "DATA") (str "My_Mod")
           (str "/LANG/") (str "Fr_FR") (str ".JSON") [10]).
  split; [reflexivity|]. split; [right; ieq_literal|].
  split; [split; [done|by apply not_in_str]|].
  split; [ieq_literal|].
  split; [split; [done|by apply not_in_str]|].
  split; [ieq_literal|by right].
Defined.

Lemma X6_witness :
  let p := str "assets/m1/lang/EN_US.json" in
  extract_mod_id p = str "m1" ∧ ieq (str "en_us") (extract_lang_code p).
Proof.
  apply (X6_fields_of_reference_path _ (str "assets") (str "m1")
           (str "/lang/EN_US.json") []).
  split; [reflexivity|]. split; [left; ieq_literal|].
  split; [split; [done|by apply not_in_str]|].
  split; [ieq_literal|by left].
Defined.

End ShapeFacts.

(** ** The two locators compared *)

Module CoverFacts.

Import LocatorFacts.

Section Facts.

Context {F : Type}.
Variable json_loads : pystr → outcome (json F).

(** Every entry the translating locator yields is the entry built from
    a member of the archive whose name matches its pattern. *)
Lemma T_found_member ms lf :
  lf ∈ (T.scan_members json_loads ms).1 →
  ∃ m, m ∈ ms
       ∧ Re.lang_pattern_en_us (filename m) = true
       ∧ T.check_member json_loads m = Ret lf.
Proof.
  induction ms as [|m ms IH]; simpl; [by intros ?%elem_of_nil|].
  assert (Hrest : lf ∈ (T.scan_members json_loads ms).1 →
                  ∃ m0, m0 ∈ m :: ms
                        ∧ Re.lang_pattern_en_us (filename m0) = true
                        ∧ T.check_member json_loads m0 = Ret lf).
  { intros (m0 & Hin & H)%IH. exists m0. split; [by right|done]. }
  destruct (Re.lang_pattern_en_us (filename m)) eqn:Hp; [|done].
  destruct (T.check_member json_loads m) as [lf0|e] eqn:Hc.
  - destruct (T.scan_members json_loads ms) as [found stop]. simpl in *.
    intros [->|Hin]%elem_of_cons; [|by apply Hrest].
    exists m. split; [apply list_elem_of_here|done].
  - destruct (T.skipped e); [done|]. by intros ?%elem_of_nil.
Qed.

(** A discovery scan that runs to the end of the archive yields the
    entry of every member it accepts. *)
Lemma D_scan_members_complete ms found m d :
  D.scan_members json_loads ms = (found, None) →
  m ∈ ms →
  Re.lang_pattern_any (filename m) = true →
  D.check_member json_loads m = Ret d →
  d ∈ found.
Proof.
  revert found. induction ms as [|m0 ms IH]; intros found Hs Hin Hp Hc.
  - by apply elem_of_nil in Hin.
  - simpl in Hs. apply elem_of_cons in Hin as [<-|Hin].
    + rewrite Hp, Hc in Hs.
      destruct (D.scan_members json_loads ms) as [found1 stop1].
      injection Hs as <- _. apply list_elem_of_here.
    + destruct (Re.lang_pattern_any (filename m0)); [|by apply IH].
      destruct (D.check_member json_loads m0) as [d0|e].
      * destruct (D.scan_members json_loads ms) as [found1 stop1].
        injection Hs as <- ->. right. by apply IH.
      * destruct (D.skipped e); [by apply IH|done].
Qed.

(** What is read, decoded and parsed for one locator is for the other:
    the entries differ in what they keep of the member only. *)
Lemma check_member_both m lf :
  T.check_member json_loads m = Ret lf →
  D.check_member json_loads m
  = Ret {| D.path := T.path lf;
           D.size := file_size m;
           D.mod_id := T.mod_id lf;
           D.lang_code := T.lang_code lf |}.
Proof.
  unfold T.check_member, D.check_member, bind.
  destruct (payload m) as [raw|]; [|done].
  destruct (Utf8.decode raw) as [text|]; [|done].
  destruct (json_loads text) as [j|]; [|done].
  by intros [= <-].
Qed.

Lemma world_snoc_ne (w : world) (e : event) : emit e w ≠ w.
Proof.
  intros H. apply (f_equal (λ x, length (out x))) in H.
  simpl in H. rewrite length_app in H. simpl in H. lia.
Qed.

Lemma D_report_ne jar e w : D.report jar e w ≠ w.
Proof. destruct e; apply world_snoc_ne. Qed.

(** X7.  When the discovery scan of an archive reports no error, it
    lists every entry the translating locator yields for that archive,
    with the same path, mod id and language code: the pattern of the
    translating locator accepts no path the pattern of the discovery
    scan rejects. *)
Theorem X7_discovery_covers_translation (jar : pystr) (w : world)
    (lf : T.lang_file F) :
  (D.find_language_files_in_jar json_loads jar w).2 = w →
  lf ∈ (T.find_language_files_in_jar json_loads jar w).1 →
  ∃ d, d ∈ (D.find_language_files_in_jar json_loads jar w).1
       ∧ D.path d = T.path lf
       ∧ D.mod_id d = T.mod_id lf
       ∧ D.lang_code d = T.lang_code lf.
Proof.
  unfold D.find_language_files_in_jar, T.find_language_files_in_jar.
  destruct (open_zip_read jar w) as [ms|e]; simpl;
    [|by intros _ ?%elem_of_nil].
  destruct (D.scan_members json_loads ms) as [foundD [e|]] eqn:HD; simpl.
  { by intros ?%D_report_ne. }
  intros _ Hin.
  assert (lf ∈ (T.scan_members json_loads ms).1) as Hlf.
  { by destruct (T.scan_members json_loads ms) as [foundT [e|]]. }
  apply T_found_member in Hlf as (m & Hm & Hp & Hc).
  apply check_member_both in Hc.
  eexists. split.
  - eapply D_scan_members_complete; [exact HD|exact Hm| |exact Hc].
    by apply ShapeFacts.en_us_is_any.
  - done.
Qed.

End Facts.

Import Examples.

Lemma X7_witness :
  ∃ d, d ∈ (D.find_language_files_in_jar Ref.loads jar_a
              (world_of fs_sword)).1
       ∧ D.path d = en_us_m1
       ∧ D.mod_id d = str "m1"
       ∧ D.lang_code d = str "en_us".
Proof.
  apply (X7_discovery_covers_translation Ref.loads jar_a
           (world_of fs_sword) lf_sword); [reflexivity|].
  assert ((T.find_language_files_in_jar Ref.loads jar_a
             (world_of fs_sword)).1 = [lf_sword]) as -> by reflexivity.
  apply list_elem_of_here.
Defined.

End CoverFacts.

(** ** The result of the discovery scan *)

Module ScanFacts.

Import Tranlator LocatorFacts.

Section Facts.

Context {F : Type}.
Variable json_loads : pystr → outcome (json F).

(** X8.  The dictionary [scan_directory_for_mods] returns has an entry
    exactly for the listed archives in which something was found, and
    the entry of an archive is what [find_language_files_in_jar] yields
    for it: an archive without language files, a file that is not an
    archive, a missing directory and a directory without archives add
    nothing. *)
Theorem X8_scan_result (glob : option (list pystr)) (w : world)
    (j : pystr) (l : list lang_file) :
  (scan_directory_for_mods json_loads glob w).1 !! j = Some l
  ↔ j ∈ default [] glob
    ∧ l ≠ []
    ∧ (find_language_files_in_jar json_loads j w).1 = l.
Proof.
  unfold scan_directory_for_mods.
  destruct glob as [[|a js]|].
  - simpl. rewrite lookup_empty. split; [done|]. by intros [?%elem_of_nil _].
  - cbv [default from_option id]. rewrite D_scan_jars_lookup.
    rewrite (D_find_fst json_loads j _ w) by done.
    destruct (decide (j ∈ a :: js)) as [Hin|Hin].
    + destruct (find_language_files_in_jar json_loads j w).1 as [|x xs].
      * rewrite lookup_empty. split; [done|]. by intros (_ & ? & <-).
      * split.
        -- intros [= <-]. done.
        -- by intros (_ & _ & ->).
    + rewrite lookup_empty. split; [done|]. by intros [? _].
  - simpl. rewrite lookup_empty. split; [done|]. by intros [?%elem_of_nil _].
Qed.

End Facts.

End ScanFacts.

(** ** The payload of a fenced reply *)

Module PayloadFacts.

Import Py TranslatorAdvance PathFacts.

Lemma startswith_other (c d : N) (sub s : pystr) :
  c ≠ d → startswith (d :: s) (c :: sub) = false.
Proof.
  intros H. unfold startswith. simpl.
  by destruct (N.eqb_spec c d).
Qed.

Lemma startswith_prefix (p r : pystr) : startswith (p ++ r) p = true.
Proof.
  unfold startswith.
  assert (strip_prefix p (p ++ r) = Some r) as ->; [|done].
  induction p as [|a p IH]; simpl; [done|]. by rewrite N.eqb_refl.
Qed.

(** A text that starts with a character cannot occur where that
    character does not. *)
Lemma find_head_absent (c : N) (sub s : pystr) :
  c ∉ s → find (c :: sub) s = None.
Proof.
  induction s as [|d s IH]; intros H; [done|].
  apply not_elem_of_cons in H as [Hc Hs].
  cbn [find]. rewrite startswith_other by done.
  by rewrite IH.
Qed.

Lemma find_head_first (c : N) (sub pre rest : pystr) :
  c ∉ pre →
  find (c :: sub) (pre ++ (c :: sub) ++ rest) = Some (length pre).
Proof.
  induction pre as [|d pre IH]; intros H.
  - cbn [app length].
    pose proof (startswith_prefix (c :: sub) rest) as Hs.
    cbn [app] in Hs. cbn [find]. by rewrite Hs.
  - apply not_elem_of_cons in H as [Hc Hpre].
    rewrite <- app_comm_cons. cbn [find length].
    rewrite startswith_other by done.
    by rewrite IH.
Qed.

Lemma find_from_head (c : N) (sub pre body rest : pystr) :
  c ∉ body →
  find_from (c :: sub) (pre ++ body ++ (c :: sub) ++ rest) (length pre)
  = Some (length pre + length body)%nat.
Proof.
  intros H. unfold find_from.
  rewrite decide_True by (rewrite length_app; lia).
  rewrite drop_app_length. by rewrite find_head_first.
Qed.

Lemma find_from_head_absent (c : N) (sub pre body : pystr) :
  c ∉ body →
  find_from (c :: sub) (pre ++ body) (length pre) = None.
Proof.
  intros H. unfold find_from.
  rewrite decide_True by (rewrite length_app; lia).
  rewrite drop_app_length. by rewrite find_head_absent.
Qed.

Lemma slice_middle (pre body rest : pystr) :
  slice (pre ++ body ++ rest) (length pre) (length pre + length body)
  = body.
Proof.
  unfold slice. rewrite drop_app_length.
  replace (length pre + length body - length pre)%nat
    with (length body) by lia.
  by rewrite take_app_length.
Qed.

(** X9.  What is parsed of a reply.  When the reply holds a block
    opened by a fence tagged [json] and closed by a fence, with no
    backquote before the block and none inside it, the content of the
    block is parsed, without the white space around it, and what follows
    the block is ignored.  When that block is not closed, the whole
    reply is parsed, fence included; and a reply without a backquote is
    parsed as it is. *)
Theorem X9_payload_of_fenced_reply (pre body post : pystr) :
  96 ∉ pre →
  96 ∉ body →
  extract_payload (pre ++ str "```json" ++ body ++ str "```" ++ post)
    = strip body
  ∧ extract_payload (pre ++ str "```json" ++ body)
    = pre ++ str "```json" ++ body
  ∧ extract_payload pre = pre.
Proof.
  intros Hpre Hbody. split; [|split].
  - unfold extract_payload, contains.
    change (str "```json") with (96 :: str "``json").
    rewrite find_head_first by done.
    change (96 :: str "``json") with (str "```json").
    change (str "```") with (96 :: str "``").
    replace (pre ++ str "```json" ++ body ++ (96 :: str "``") ++ post)
      with ((pre ++ str "```json") ++ body ++ (96 :: str "``") ++ post)
      by by rewrite <- app_assoc.
    replace (length pre + 7)%nat with (length (pre ++ str "```json"))
      by (rewrite length_app; done).
    rewrite find_from_head by done.
    by rewrite slice_middle.
  - unfold extract_payload, contains.
    change (str "```json") with (96 :: str "``json").
    replace (pre ++ (96 :: str "``json") ++ body)
      with (pre ++ (96 :: str "``json") ++ body ++ [])
      by by rewrite app_nil_r.
    rewrite find_head_first by done.
    rewrite app_nil_r.
    change (96 :: str "``json") with (str "```json").
    change (str "```") with (96 :: str "``").
    replace (pre ++ str "```json" ++ body)
      with ((pre ++ str "```json") ++ body)
      by by rewrite <- app_assoc.
    replace (length pre + 7)%nat with (length (pre ++ str "```json"))
      by (rewrite length_app; done).
    by rewrite find_from_head_absent.
  - unfold extract_payload, contains.
    change (str "```json") with (96 :: str "``json").
    change (str "```") with (96 :: str "``").
    by rewrite !find_head_absent.
Qed.

Import Examples.

Lemma X9_witness :
  extract_payload one_block = ken
  ∧ extract_payload
      (js "Here you are:" ++ [10] ++ str "```json" ++ [10] ++ ken ++ [10])
    = js "Here you are:" ++ [10] ++ str "```json" ++ [10] ++ ken ++ [10]
  ∧ extract_payload (js "Here you are:" ++ [10])
    = js "Here you are:" ++ [10].
Proof.
  apply (X9_payload_of_fenced_reply (js "Here you are:" ++ [10])
           ([10] ++ ken ++ [10]) []); by apply not_in_str.
Defined.

End PayloadFacts.

(** ** UTF-8: what was encoded decodes to the same text *)

Module Utf8Facts.

Import Utf8.

Ltac lia_div := zify; Z.to_euclidean_division_equations; lia.

Ltac bools :=
  repeat match goal with
         | H : (_ && _) = true |- _ => apply andb_true_iff in H as [? ?]
         | H : (_ && _) = false |- _ => apply andb_false_iff in H as [?|?]
         | H : negb _ = true |- _ => apply negb_true_iff in H
         | H : negb _ = false |- _ => apply negb_false_iff in H
         | H : (_ <? _) = true |- _ => apply N.ltb_lt in H
         | H : (_ <? _) = false |- _ => apply N.ltb_ge in H
         | H : (_ <=? _) = true |- _ => apply N.leb_le in H
         | H : (_ <=? _) = false |- _ => apply N.leb_gt in H
         end.

Lemma to_N_byte_of_N (n : N) : n < 256 → Byte.to_N (byte_of_N n) = n.
Proof.
  intros H. unfold byte_of_N.
  destruct (Byte.of_N n) as [b|] eqn:Hb.
  - by apply Byte.to_of_N.
  - apply Byte.of_N_None_iff in Hb. lia.
Qed.

Ltac split_ifs :=
  repeat match goal with
         | |- context [if ?b then _ else _] => destruct b eqn:?
         end;
  bools; try lia.

Lemma encode_char_decode (c : N) (bs t : list N) :
  encode_char c = Some bs →
  Forall (λ b, b < 256) bs
  ∧ decode_N (bs ++ t) = cons c <$> decode_N t.
Proof.
  unfold encode_char, surrogate.
  destruct (c <? 128) eqn:H1.
  { intros [= <-]. bools. split; [repeat constructor; lia|].
    cbn [app decode_N]. by rewrite (proj2 (N.ltb_lt _ _) H1). }
  destruct (c <? 2048) eqn:H2.
  { intros [= <-]. bools.
    assert (c = c / 64 * 64 + c mod 64 ∧ c mod 64 < 64) as [Hc ?]
      by lia_div.
    set (q := c / 64) in *. set (r := c mod 64) in *. clearbody q r.
    split; [repeat constructor; lia|].
    cbn [app decode_N]. unfold cont. split_ifs.
    all: f_equal; f_equal; lia. }
  destruct ((55296 <=? c) && (c <=? 57343)) eqn:H3; [done|].
  destruct (c <? 65536) eqn:H4.
  { intros [= <-].
    assert (c = c / 4096 * 4096 + (c / 64) mod 64 * 64 + c mod 64
            ∧ (c / 64) mod 64 < 64 ∧ c mod 64 < 64) as (Hc & ? & ?)
      by lia_div.
    set (q := c / 4096) in *. set (m := (c / 64) mod 64) in *.
    set (r := c mod 64) in *. clearbody q m r.
    split; [bools; repeat constructor; lia|].
    cbn [app decode_N]. unfold cont, surrogate. split_ifs.
    all: f_equal; f_equal; lia. }
  destruct (c <=? 1114111) eqn:H5; [|done].
  intros [= <-].
  assert (c = c / 262144 * 262144 + (c / 4096) mod 64 * 4096
              + (c / 64) mod 64 * 64 + c mod 64
          ∧ (c / 4096) mod 64 < 64 ∧ (c / 64) mod 64 < 64
          ∧ c mod 64 < 64) as (Hc & ? & ? & ?)
    by lia_div.
  set (q := c / 262144) in *. set (m1 := (c / 4096) mod 64) in *.
  set (m2 := (c / 64) mod 64) in *. set (r := c mod 64) in *.
  clearbody q m1 m2 r.
  split; [bools; repeat constructor; lia|].
  cbn [app decode_N]. unfold cont. split_ifs.
  all: f_equal; f_equal; lia.
Qed.

Lemma encode_N_decode (s : pystr) (l : list N) :
  encode_N s = Some l →
  Forall (λ b, b < 256) l ∧ decode_N l = Some s.
Proof.
  revert l. induction s as [|c s IH]; intros l; simpl.
  - intros [= <-]. by split.
  - destruct (encode_char c) as [bs|] eqn:Hc; [|done].
    destruct (encode_N s) as [r|]; [|done]. intros [= <-].
    destruct (IH r eq_refl) as [Hr Hd].
    destruct (encode_char_decode c bs r Hc) as [Hbs Hdec].
    split; [by apply Forall_app|]. by rewrite Hdec, Hd.
Qed.

(** Decoding what [encode] produced gives the text back. *)
Lemma decode_encode (s : pystr) (b : bytes) :
  encode s = Ret b → decode b = Ret s.
Proof.
  unfold encode, decode.
  destruct (encode_N s) as [l|] eqn:Hl; [|done]. intros [= <-].
  apply encode_N_decode in Hl as [Hlt Hd].
  assert (map Byte.to_N (map byte_of_N l) = l) as ->; [|by rewrite Hd].
  clear Hd. induction Hlt as [|n l Hn _ IH]; simpl; [done|].
  by rewrite to_N_byte_of_N, IH.
Qed.

End Utf8Facts.

(** ** Whole runs and single calls of the mutator *)

Module RunFacts.

Import TranslatorAdvance Mutator Runs AdvanceFacts.
Import TranlatorFacts.

Section Facts.

Context {F : Type}.
Variable float_truthy : F → bool.
Variable json_loads : pystr → outcome (json F).
Variable json_dumps : json F → outcome pystr.
Variable prompt_header : pystr.

Abbreviation save := (save_translated_json_to_jar json_dumps).
Abbreviation find := (find_language_files_in_jar json_loads).
Abbreviation count := (count_language_files json_loads).
Abbreviation translate :=
  (translate_json_with_gemini json_loads json_dumps prompt_header).
Abbreviation body :=
  (translate_lang_file float_truthy json_loads json_dumps prompt_header).
Abbreviation loop :=
  (translate_jars float_truthy json_loads json_dumps prompt_header).
Abbreviation run :=
  (translate_mod_files float_truthy json_loads json_dumps prompt_header).

(** *** A run is a sequence of calls of the mutator *)

(** The loop body writes to the file system through the mutator only,
    and at most once. *)
Lemma body_fs self E jars jar st lf :
  fs (now (body self E jars jar st lf)) = fs (now st)
  ∨ ∃ tc w1,
      fs w1 = fs (now st)
      ∧ fs (now (body self E jars jar st lf))
        = fs (save (save_faults E (S (total_files st))) jar lf tc w1).2.
Proof.
  unfold translate_lang_file.
  pose proof (fs_translate json_loads json_dumps prompt_header
                (gemini E (S (total_files st))) (content lf)
                (print (MsgTranslating (path lf)) (now st))) as Ht.
  destruct (translate _ _ _) as [tc w1]. simpl in Ht.
  destruct (truthy float_truthy tc).
  - right. exists tc, w1.
    split; [done|].
    destruct (save _ _ _ _ w1) as [[|] w2]; simpl.
    + pose proof (fs_count json_loads jars (print MsgDone w2)) as Hc.
      destruct (count _ _) as [located w3]. simpl in Hc |- *.
      by destruct (_ <? _)%nat.
    + pose proof (fs_count json_loads jars (print MsgSaveFailed w2)) as Hc.
      destruct (count _ _) as [located w3]. simpl in Hc |- *.
      by destruct (_ <? _)%nat.
  - left.
    pose proof (fs_count json_loads jars (print MsgTranslateFailed w1)) as Hc.
    destruct (count _ _) as [located w3]. simpl in Hc |- *.
    destruct (_ <? _)%nat; simpl; congruence.
Qed.

Lemma body_saved ok self E jars jar st lf all :
  (∀ n, ok (save_faults E n)) →
  jar ∈ all →
  saved json_dumps ok all (fs (now st))
    (fs (now (body self E jars jar st lf))).
Proof.
  intros Hok Hin.
  destruct (body_fs self E jars jar st lf) as [->|(tc & w1 & H1 & ->)].
  - apply rtc_refl.
  - apply rtc_once.
    by exists jar, (save_faults E (S (total_files st))), lf, tc, w1.
Qed.

Lemma fold_body_saved ok self E jars jar lfs st all :
  (∀ n, ok (save_faults E n)) →
  jar ∈ all →
  saved json_dumps ok all (fs (now st))
    (fs (now (fold_left (body self E jars jar) lfs st))).
Proof.
  intros Hok Hin. revert st.
  induction lfs as [|lf lfs IH]; intros st; simpl.
  - apply rtc_refl.
  - eapply rtc_trans; [by apply body_saved|apply IH].
Qed.

Lemma loop_saved ok self E jars todo st all :
  (∀ n, ok (save_faults E n)) →
  (∀ j, j ∈ todo → j ∈ all) →
  saved json_dumps ok all (fs (now st))
    (fs (now (loop self E jars todo st))).
Proof.
  intros Hok. revert st. induction todo as [|jar rest IH]; intros st Hsub.
  - apply rtc_refl.
  - cbn [translate_jars].
    pose proof (fs_find json_loads jar (print (MsgProcessing jar) (now st)))
      as Hfs.
    destruct (find jar _) as [lfs w1]. simpl in Hfs.
    assert (Hrest : ∀ j, j ∈ rest → j ∈ all)
      by (intros j Hj; apply Hsub; by right).
    destruct lfs as [|lf lfs].
    + specialize (IH {| total_files := total_files st;
                        successful_translations := successful_translations st;
                        now := print MsgNoneFound w1 |} Hrest).
      simpl in IH. by rewrite Hfs in IH.
    + eapply rtc_trans; [|by apply IH].
      pose proof (fold_body_saved ok self E jars jar (lf :: lfs)
                    {| total_files := total_files st;
                       successful_translations := successful_translations st;
                       now := print (MsgFound (length (lf :: lfs))) w1 |}
                    all Hok) as H.
      simpl now in H at 1. simpl fs in H at 1. rewrite Hfs in H.
      apply H, Hsub, list_elem_of_here.
Qed.

Lemma run_saved ok self E glob w :
  (∀ n, ok (save_faults E n)) →
  saved json_dumps ok (default [] glob) (fs w) (fs (run self E glob w)).
Proof.
  intros Hok.
  unfold translate_mod_files. destruct glob as [[|j js]|]; try apply rtc_refl.
  by apply (loop_saved ok self E (j :: js) (j :: js)
              {| total_files := 0; successful_translations := 0;
                 now := print MsgRule
                          (print (MsgJarCount (length (j :: js))) w) |}).
Qed.

(** *** What one call of the mutator can do to a file *)

Lemma backup_path_inj a b : backup_path_of a = backup_path_of b → a = b.
Proof. unfold backup_path_of. by intros ?%app_inv_tail. Qed.

(** A file that exists and is not the archive of the call is left as it
    is. *)
Lemma save_keeps_other flt jar lf tc w (p : pystr) (f : file_data) :
  fs w !! p = Some f →
  p ≠ jar →
  fs (save flt jar lf tc w).2 !! p = Some f.
Proof.
  intros Hp Hne. destruct (decide (p = backup_path_of jar)) as [->|Hb].
  - by apply save_keeps_backup.
  - by rewrite save_elsewhere.
Qed.

(** The only file a call can create is the backup of its archive. *)
Lemma save_creates_backup_only flt jar lf tc w (p : pystr) :
  fs w !! p = None →
  p ≠ backup_path_of jar →
  fs (save flt jar lf tc w).2 !! p = None.
Proof.
  intros Hp Hb.
  destruct (save_cases json_dumps flt jar lf tc w)
    as [[_ ->]|[(_ & _ & x & _ & ->)
               |[(_ & f & x & Hf & _ & ->)
                |(f & s & data & Hf & _ & _ & -> & _)]]].
  - done.
  - by rewrite with_debris_lookup_ne.
  - rewrite with_debris_lookup_ne by congruence.
    by rewrite with_backup_lookup_ne.
  - rewrite lookup_insert_ne by congruence.
    by rewrite with_backup_lookup_ne.
Qed.




(** *** Whole runs *)

Lemma saved_ind (ok : faults → Prop) (P : fsys → Prop)
    (jars : list pystr) (f f' : fsys) :
  P f →
  (∀ jar flt (lf : lang_file F) tc w,
     jar ∈ jars → ok flt → P (fs w) → P (fs (save flt jar lf tc w).2)) →
  saved json_dumps ok jars f f' →
  P f'.
Proof.
  intros H0 Hstep Hs. induction Hs as [|g1 g2 g3 Hst _ IH]; [done|].
  apply IH. destruct Hst as (jar & flt & lf & tc & w & Hin & Hok & <- & <-).
  by apply Hstep.
Qed.

(** X10.  A run never modifies a file that exists and is not one of the
    archives it was given: after [translate_mod_files] such a file,
    a backup made earlier included, holds what it held before.  (The
    temporary directory of a call is its own and not part of the file
    system here.) *)
Theorem X10_run_keeps_other_files (self : ModTranslator) (E : env)
    (glob : option (list pystr)) (w : world) (p : pystr) (f : file_data) :
  fs w !! p = Some f →
  p ∉ default [] glob →
  fs (run self E glob w) !! p = Some f.
Proof.
  intros Hp Hout.
  apply (saved_ind any_fault (λ g, g !! p = Some f) (default [] glob)
           (fs w)); [done| |by apply run_saved].
  intros jar flt lf tc w1 Hin _ H1. apply save_keeps_other; [done|].
  by intros ->.
Qed.

(** X11.  The only files a run creates, its temporary directories
    apart, are backups: a path that holds no file before the run and is
    not the backup path of a listed archive holds no file after it. *)
Theorem X11_run_creates_backups_only (self : ModTranslator) (E : env)
    (glob : option (list pystr)) (w : world) (p : pystr) :
  fs w !! p = None →
  p ∉ backup_path_of <$> default [] glob →
  fs (run self E glob w) !! p = None.
Proof.
  intros Hp Hout.
  apply (saved_ind any_fault (λ g, g !! p = None) (default [] glob)
           (fs w)); [done| |by apply run_saved].
  intros jar flt lf tc w1 Hin _ H1. apply save_creates_backup_only; [done|].
  intros ->. apply Hout, list_elem_of_fmap. by exists jar.
Qed.


(** X13.  As long as no copy to a backup fails part-way, an archive
    that has no backup before the run can be recovered after it, even
    when a move back to the archive fails part-way: either the archive
    is untouched and still has no backup, or its backup holds what the
    archive held before the run.  (No listed archive is the backup path
    of another: the list holds [*.jar] paths.  A copy that fails
    part-way leaves a truncated backup that is never made again: see
    [backup_lost_after_broken_copy].) *)
Theorem X13_run_backup_is_original (self : ModTranslator) (E : env)
    (glob : option (list pystr)) (w : world) (jar : pystr)
    (original : file_data) :
  (∀ n, fails_clean (save_faults E n) CopyBackup) →
  fs w !! jar = Some original →
  fs w !! backup_path_of jar = None →
  (∀ a, a ∈ default [] glob →
        a ≠ backup_path_of jar ∧ jar ≠ backup_path_of a) →
  (fs (run self E glob w) !! backup_path_of jar = None
   ∧ fs (run self E glob w) !! jar = Some original)
  ∨ fs (run self E glob w) !! backup_path_of jar = Some original.
Proof.
  intros Hclean Hjar Hnone Hclash.
  apply (saved_ind (λ flt, fails_clean flt CopyBackup)
           (λ g, (g !! backup_path_of jar = None ∧ g !! jar = Some original)
                 ∨ g !! backup_path_of jar = Some original)
           (default [] glob) (fs w)); [by left| |by apply run_saved].
  intros a flt lf tc w1 Hin Hok Hinv.
  destruct (Hclash a Hin) as [Ha1 Ha2].
  destruct (decide (a = jar)) as [->|Hne].
  - destruct Hinv as [[Hb Hj]|Hb]; [|right; by apply save_keeps_backup].
    destruct (save_cases json_dumps flt jar lf tc w1)
      as [[_ ->]|[(_ & _ & x & Hx & ->)
                 |[(_ & f0 & x & Hf & _ & ->)
                  |(f0 & s & data & Hf & _ & _ & -> & _)]]].
    + by left.
    + left. rewrite with_debris_clean by by apply Hok. done.
    + right. rewrite with_debris_lookup_ne by apply backup_path_neq.
      rewrite with_backup_lookup, Hb. simpl. congruence.
    + right. rewrite lookup_insert_ne by (apply not_eq_sym, backup_path_neq).
      rewrite with_backup_lookup, Hb. simpl. congruence.
  - assert (backup_path_of jar ≠ backup_path_of a) as Hbb
      by (intros ?%backup_path_inj; congruence).
    rewrite !(save_elsewhere json_dumps flt a lf tc w1); by auto.
Qed.

(** *** What a run sends and counts *)

Abbreviation located_in := (Mutator.located_in json_loads).
Abbreviation located_total := (Mutator.located_total json_loads).
Abbreviation prompt_of := (Runs.prompt_of json_dumps prompt_header).
Abbreviation prompts_of :=
  (Runs.prompts_of json_loads json_dumps prompt_header).

Lemma requests_print tr m : requests (tr ++ [Print m]) = requests tr.
Proof. unfold requests. rewrite omap_app. simpl. apply app_nil_r. Qed.

Lemma requests_out_print m w :
  requests (out (print m w)) = requests (out w).
Proof. apply requests_print. Qed.

Lemma requests_sleep tr s : requests (tr ++ [Sleep s]) = requests tr.
Proof. unfold requests. rewrite omap_app. simpl. apply app_nil_r. Qed.

Lemma requests_report jar e w :
  requests (out (report jar e w)) = requests (out w).
Proof. destruct e; apply requests_print. Qed.

Lemma requests_find jar w :
  requests (out (find jar w).2) = requests (out w).
Proof.
  unfold find_language_files_in_jar.
  destruct (open_zip_read jar w) as [ms|e]; simpl.
  - destruct (scan_members json_loads ms) as [found [e|]]; simpl;
      [apply requests_report|done].
  - apply requests_report.
Qed.

Lemma requests_count jars w :
  requests (out (count jars w).2) = requests (out w).
Proof.
  revert w. induction jars as [|jf rest IH]; intros w; simpl; [done|].
  pose proof (requests_find jf w) as Hf.
  destruct (find jf w) as [l w1]. simpl in Hf.
  specialize (IH w1). destruct (count rest w1) as [n w2]. simpl in *.
  congruence.
Qed.

(** The mutator only prints. *)
Lemma requests_save flt jar lf tc w :
  requests (out (save flt jar lf tc w).2) = requests (out w).
Proof.
  destruct (save_prints json_dumps flt jar lf tc w) as [ms ->].
  induction ms as [|m ms IH] using rev_ind.
  - simpl. by rewrite app_nil_r.
  - rewrite map_app. cbn [map]. by rewrite app_assoc, requests_print.
Qed.

(** A translation sends the prompt of the mapping, once, if the mapping
    can be serialized, and nothing otherwise. *)
Lemma requests_translate gc data w :
  requests (out (translate gc data w).2)
  = requests (out w) ++ prompt_of data.
Proof.
  unfold translate_json_with_gemini, Runs.prompt_of.
  destruct (json_dumps data) as [json_str|e]; cbn [snd].
  2: { simpl. by rewrite requests_print, app_nil_r. }
  assert (Hreq : requests (out (emit (Request (prompt_header ++ json_str)) w))
                 = requests (out w) ++ [prompt_header ++ json_str]).
  { unfold requests. simpl. by rewrite omap_app. }
  destruct (gc _) as [r|e]; cbn [snd].
  2: { unfold print. cbn [emit out]. by rewrite requests_print. }
  destruct (response_text r) as [t|]; cbn [snd].
  2: { unfold print. cbn [emit out]. by rewrite requests_print. }
  destruct (json_loads _) as [j|[]]; cbn [snd]; unfold print;
    cbn [emit out]; by rewrite ?requests_print.
Qed.

Lemma body_requests self E jars jar st lf :
  requests (out (now (body self E jars jar st lf)))
  = requests (out (now st)) ++ prompt_of (content lf).
Proof.
  unfold translate_lang_file.
  pose proof (requests_translate (gemini E (S (total_files st)))
                (content lf) (print (MsgTranslating (path lf)) (now st)))
    as Ht.
  unfold print at 2 in Ht. cbn [emit out] in Ht.
  rewrite requests_print in Ht.
  destruct (translate _ _ _) as [tc w1]. cbn [snd] in Ht.
  assert (Htail : ∀ succ w2,
            requests (out w2) = requests (out w1) →
            requests (out (now
              (let '(located, w) := count jars w2 in
               {| total_files := S (total_files st);
                  successful_translations := succ;
                  now := if (S (total_files st) <? located)%nat
                         then emit (Sleep (translation_delay self))
                                (print (MsgWaiting (translation_delay self)) w)
                         else w |})))
            = requests (out (now st)) ++ prompt_of (content lf)).
  { intros succ w2 H2. pose proof (requests_count jars w2) as Hc.
    destruct (count jars w2) as [located w3]. cbn [snd now] in Hc |- *.
    destruct (_ <? _)%nat; unfold print; cbn [emit out];
      rewrite ?requests_sleep, ?requests_print; congruence. }
  destruct (truthy float_truthy tc).
  - pose proof (requests_save (save_faults E (S (total_files st)))
                  jar lf tc w1) as Hs.
    destruct (save _ _ _ _ w1) as [[|] w2]; cbn [snd] in Hs;
      apply Htail; unfold print; cbn [emit out];
      by rewrite requests_print.
  - apply Htail. unfold print; cbn [emit out]. by rewrite requests_print.
Qed.

Lemma fold_body_requests self E jars jar lfs st :
  requests (out (now (fold_left (body self E jars jar) lfs st)))
  = requests (out (now st))
    ++ flat_map (λ lf, prompt_of (content lf)) lfs.
Proof.
  revert st. induction lfs as [|lf lfs IH]; intros st; simpl.
  - by rewrite app_nil_r.
  - by rewrite IH, body_requests, <- app_assoc.
Qed.

(** The loop body counts a success only together with the attempt. *)
Lemma body_successes self E jars jar st lf :
  (successful_translations st
   ≤ successful_translations (body self E jars jar st lf)
   ≤ S (successful_translations st))%nat.
Proof.
  unfold translate_lang_file.
  destruct (translate _ _ _) as [tc w1].
  destruct (truthy float_truthy tc).
  - destruct (save _ _ _ _ _) as [[|] w2];
      destruct (count _ _) as [located w3]; simpl; lia.
  - destruct (count _ _) as [located w3]; simpl; lia.
Qed.

Lemma fold_body_successes self E jars jar lfs st :
  (successful_translations st ≤ total_files st)%nat →
  (successful_translations (fold_left (body self E jars jar) lfs st)
   ≤ total_files (fold_left (body self E jars jar) lfs st))%nat.
Proof.
  revert st. induction lfs as [|lf lfs IH]; intros st H; simpl; [done|].
  apply IH.
  pose proof (body_successes self E jars jar st lf).
  pose proof (body_counts float_truthy json_loads json_dumps prompt_header
                self E jars jar st lf).
  lia.
Qed.

Lemma loop_successes self E jars todo st :
  (successful_translations st ≤ total_files st)%nat →
  (successful_translations (loop self E jars todo st)
   ≤ total_files (loop self E jars todo st))%nat.
Proof.
  revert st. induction todo as [|jar rest IH]; intros st H; [done|].
  cbn [translate_jars].
  destruct (find jar _) as [[|lf lfs] w1].
  - by apply IH.
  - apply IH. by apply fold_body_successes.
Qed.

(** What the locator finds in an archive depends on that file only. *)
Lemma find_fst_lookup jar w w' :
  fs w !! jar = fs w' !! jar →
  (find jar w).1 = (find jar w').1.
Proof.
  intros Hfs. unfold find_language_files_in_jar, open_zip_read.
  rewrite Hfs. destruct (fs w' !! jar) as [f|]; [|done].
  destruct (zip_dir f) as [ms|]; [|done].
  by destruct (scan_members json_loads ms) as [found [e|]].
Qed.

Lemma located_total_ext (f f' : fsys) (l : list pystr) :
  (∀ j, j ∈ l → f !! j = f' !! j) →
  located_total f l = located_total f' l.
Proof.
  intros H. unfold Mutator.located_total.
  induction l as [|j l IH]; simpl; [done|].
  rewrite IH by (intros; apply H; by right).
  f_equal. unfold Mutator.located_in. f_equal.
  apply find_fst_lookup. simpl. apply H, list_elem_of_here.
Qed.

Lemma prompts_of_ext (f f' : fsys) (l : list pystr) :
  (∀ j, j ∈ l → f !! j = f' !! j) →
  prompts_of f l = prompts_of f' l.
Proof.
  intros H. unfold Runs.prompts_of.
  induction l as [|j l IH]; simpl; [done|].
  rewrite IH by (intros; apply H; by right).
  f_equal. f_equal.
  apply find_fst_lookup. simpl. apply H, list_elem_of_here.
Qed.

(** The entries of one archive leave the other archives of a list
    without repetition and without clash as they are. *)
Lemma fold_body_elsewhere self E jars jar lfs st (p : pystr) :
  p ≠ jar →
  p ≠ backup_path_of jar →
  fs (now (fold_left (body self E jars jar) lfs st)) !! p
  = fs (now st) !! p.
Proof.
  intros Hne Hb.
  apply (saved_ind any_fault (λ g, g !! p = fs (now st) !! p) [jar]
           (fs (now st)));
    [done| |apply fold_body_saved; [done|apply list_elem_of_here]].
  intros a flt lf tc w1 ->%list_elem_of_singleton _ H1.
  by rewrite save_elsewhere.
Qed.

Lemma loop_visits self E jars todo st :
  NoDup todo →
  no_clash todo →
  total_files (loop self E jars todo st)
  = (total_files st + located_total (fs (now st)) todo)%nat
  ∧ requests (out (now (loop self E jars todo st)))
    = requests (out (now st)) ++ prompts_of (fs (now st)) todo.
Proof.
  revert st. induction todo as [|jar rest IH]; intros st Hnd Hcl.
  - simpl. rewrite app_nil_r. split; [lia|done].
  - cbn [translate_jars].
    apply NoDup_cons in Hnd as [Hjar Hnd].
    assert (Hcl' : no_clash rest).
    { intros a b Ha Hb. apply Hcl; by right. }
    set (w0 := print (MsgProcessing jar) (now st)).
    pose proof (fs_find json_loads jar w0) as Hfs.
    pose proof (requests_find jar w0) as Hrq.
    pose proof (find_fst_lookup jar w0 {| fs := fs (now st); out := [] |}
                  eq_refl) as Hfst.
    destruct (find jar w0) as [lfs w1]. cbn [fst snd] in Hfs, Hrq, Hfst.
    unfold w0, print in Hrq. cbn [emit out] in Hrq.
    rewrite requests_print in Hrq.
    change (fs w0) with (fs (now st)) in Hfs. clear w0.
    assert (Htot : located_total (fs (now st)) (jar :: rest)
                   = (length lfs + located_total (fs (now st)) rest)%nat).
    { unfold Mutator.located_total. simpl. unfold Mutator.located_in at 1.
      by rewrite <- Hfst. }
    assert (Hpr : prompts_of (fs (now st)) (jar :: rest)
                  = flat_map (λ lf, prompt_of (content lf)) lfs
                    ++ prompts_of (fs (now st)) rest).
    { unfold Runs.prompts_of. simpl. by rewrite <- Hfst. }
    rewrite Htot, Hpr.
    destruct lfs as [|lf lfs].
    + destruct (IH {| total_files := total_files st;
                      successful_translations := successful_translations st;
                      now := print MsgNoneFound w1 |} Hnd Hcl')
        as [IH1 IH2].
      cbn [now total_files] in IH1, IH2.
      change (fs (print MsgNoneFound w1)) with (fs w1) in IH1, IH2.
      change (out (print MsgNoneFound w1))
        with (out w1 ++ [Print MsgNoneFound]) in IH2.
      rewrite requests_print, Hrq, Hfs in IH2. rewrite Hfs in IH1.
      split; [by rewrite IH1|by rewrite IH2].
    + set (st0 := {| total_files := total_files st;
                     successful_translations := successful_translations st;
                     now := print (MsgFound (length (lf :: lfs))) w1 |}).
      set (st1 := fold_left (body self E jars jar) (lf :: lfs) st0).
      destruct (IH st1 Hnd Hcl') as [IH1 IH2].
      assert (Hsame : ∀ j, j ∈ rest → fs (now st1) !! j = fs (now st) !! j).
      { intros j Hj. unfold st1. rewrite fold_body_elsewhere.
        - unfold st0. cbn [now]. change (fs (print _ w1)) with (fs w1).
          by rewrite Hfs.
        - intros ->. done.
        - apply Hcl; [apply list_elem_of_here|by right]. }
      rewrite (located_total_ext _ _ _ Hsame) in IH1.
      rewrite (prompts_of_ext _ _ _ Hsame) in IH2.
      rewrite IH1, IH2. unfold st1.
      rewrite fold_body_counts, fold_body_requests. unfold st0.
      cbn [now total_files]. unfold print. cbn [emit out].
      rewrite requests_print, Hrq.
      split; [lia|by rewrite <- app_assoc].
Qed.

(** X14.  A run sends the service exactly the prompts of the reference
    entries its archives hold when it starts, one request per entry
    that can be serialized, archive by archive in member order,
    whatever the service answers and whether or not the results can be
    saved: an entry added by the run is never translated again in the
    same run. *)
Theorem X14_run_requests (self : ModTranslator) (E : env)
    (jar_files : list pystr) (w : world) :
  NoDup jar_files →
  no_clash jar_files →
  requests (out (run self E (Some jar_files) w))
  = requests (out w) ++ prompts_of (fs w) jar_files.
Proof.
  intros Hnd Hcl. unfold translate_mod_files.
  destruct jar_files as [|j js].
  - by rewrite requests_out_print, app_nil_r.
  - rewrite !requests_out_print.
    match goal with
    | |- context [loop self E ?a ?b ?s] =>
        destruct (loop_visits self E a b s Hnd Hcl) as [_ H]
    end.
    rewrite H. cbn [now]. by rewrite !requests_out_print.
Qed.

(** X15.  The summary a run prints last counts every reference entry
    located at the start as processed, and never more successes than
    entries. *)
Theorem X15_run_summary (self : ModTranslator) (E : env)
    (jar_files : list pystr) (w : world) :
  jar_files ≠ [] →
  NoDup jar_files →
  no_clash jar_files →
  ∃ successful,
    last (out (run self E (Some jar_files) w))
    = Some (Print (MsgSummary (located_total (fs w) jar_files) successful))
    ∧ (successful ≤ located_total (fs w) jar_files)%nat.
Proof.
  intros Hne Hnd Hcl. unfold translate_mod_files.
  destruct jar_files as [|j js]; [done|].
  set (st0 := {| total_files := 0; successful_translations := 0;
                 now := print MsgRule
                          (print (MsgJarCount (length (j :: js))) w) |}).
  destruct (loop_visits self E (j :: js) (j :: js) st0 Hnd Hcl) as [Ht _].
  pose proof (loop_successes self E (j :: js) (j :: js) st0) as Hs.
  cbn [total_files successful_translations now] in Ht, Hs.
  change (total_files st0 + located_total (fs (now st0)) (j :: js))%nat
    with (located_total (fs w) (j :: js)) in Ht.
  exists (successful_translations (loop self E (j :: js) (j :: js) st0)).
  split.
  - unfold print at 1. cbn [emit out]. rewrite last_snoc.
    by rewrite Ht.
  - rewrite <- Ht. apply Hs. unfold st0. simpl. lia.
Qed.

(** X16.  When no archive holds a reference entry, a run sends no
    request and writes nothing: the file system is left as it was. *)
Theorem X16_nothing_located (self : ModTranslator) (E : env)
    (glob : option (list pystr)) (w : world) :
  located_total (fs w) (default [] glob) = 0%nat →
  fs (run self E glob w) = fs w
  ∧ requests (out (run self E glob w)) = requests (out w).
Proof.
  intros H0.
  assert (Hloop : ∀ jars todo st,
            located_total (fs (now st)) todo = 0%nat →
            fs (now (loop self E jars todo st)) = fs (now st)
            ∧ requests (out (now (loop self E jars todo st)))
              = requests (out (now st))).
  { intros jars todo. induction todo as [|jar rest IH]; intros st Hz.
    - done.
    - cbn [translate_jars].
      set (w0 := print (MsgProcessing jar) (now st)).
      pose proof (fs_find json_loads jar w0) as Hfs.
      pose proof (requests_find jar w0) as Hrq.
      pose proof (find_fst_lookup jar w0 {| fs := fs (now st); out := [] |}
                    eq_refl) as Hfst.
      unfold Mutator.located_total in Hz. simpl in Hz.
      unfold Mutator.located_in at 1 in Hz. rewrite <- Hfst in Hz.
      destruct (find jar w0) as [lfs w1]. cbn [fst snd] in Hfs, Hrq, Hz.
      unfold w0, print in Hrq. cbn [emit out] in Hrq.
      rewrite requests_print in Hrq.
      change (fs w0) with (fs (now st)) in Hfs. clear w0 Hfst.
      destruct lfs as [|lf lfs]; [|simpl in Hz; lia].
      destruct (IH {| total_files := total_files st;
                      successful_translations := successful_translations st;
                      now := print MsgNoneFound w1 |}) as [IH1 IH2].
      + cbn [now]. change (fs (print MsgNoneFound w1)) with (fs w1).
        rewrite Hfs. simpl in Hz. apply Hz.
      + cbn [now] in IH1, IH2.
        change (fs (print MsgNoneFound w1)) with (fs w1) in IH1.
        change (out (print MsgNoneFound w1))
          with (out w1 ++ [Print MsgNoneFound]) in IH2.
        rewrite requests_print in IH2.
        split; congruence. }
  unfold translate_mod_files. destruct glob as [[|j js]|].
  - by rewrite requests_out_print.
  - destruct (Hloop (j :: js) (j :: js)
                {| total_files := 0; successful_translations := 0;
                   now := print MsgRule
                            (print (MsgJarCount (length (j :: js))) w) |})
      as [H1 H2]; [exact H0|].
    rewrite !requests_out_print, !fs_print. rewrite H1, H2. cbn [now].
    by rewrite !requests_out_print.
  - by rewrite requests_out_print.
Qed.

(** *** Single calls of the mutator *)

(** X17.  A call of the mutator on an archive that does not exist, or
    with a mapping that cannot be serialized or whose text cannot be
    encoded as UTF-8, fails without a trace in the file system: the
    call returns [False], reports the error, and no backup has been
    made. *)
Theorem X17_save_rejects_bad_input (flt : faults) (jar : pystr)
    (lf : lang_file F) (tc : json F) (w : world) :
  fs w !! jar = None
  ∨ (∃ e, json_dumps tc = Raise e)
  ∨ (∃ s e, json_dumps tc = Ret s ∧ Utf8.encode s = Raise e) →
  (save flt jar lf tc w).1 = false
  ∧ fs (save flt jar lf tc w).2 = fs w
  ∧ ∃ e, last (out (save flt jar lf tc w).2)
         = Some (Print (MsgJarUpdateError e)).
Proof.
  intros Hbad.
  assert ((save flt jar lf tc w).1 = false
          ∧ fs (save flt jar lf tc w).2 = fs w) as [H1 H2].
  { unfold save_translated_json_to_jar, save_steps.
    unfold mbind, io_bind, mret, io_ret, fault, lift, say, read_file,
      write_file, path_exists.
    destruct (flt MkTemp); [done|].
    destruct (fs w !! jar) as [f|] eqn:Hjar; [|done].
    destruct (flt CopyToTemp); [done|].
    destruct (flt OpenAppend); [done|].
    destruct (json_dumps tc) as [s|] eqn:Hs; [|done].
    destruct (Utf8.encode s) as [data|] eqn:Hd; [|done].
    destruct Hbad as [?|[[e ?]|(s' & e & ? & ?)]]; congruence. }
  split; [done|]. split; [done|].
  pose proof (save_reports json_dumps flt jar lf tc w) as Hr.
  simpl in Hr. by rewrite H1 in Hr.
Qed.

(** X18.  The member a successful call appends reads back as the text
    that was serialized: both locators decode its data without error,
    and what they make of the member is decided by [json.loads] on that
    text alone. *)
Theorem X18_saved_entry_reads_back (flt : faults) (jar : pystr)
    (lf : lang_file F) (tc : json F) (w : world) :
  (save flt jar lf tc w).1 = true →
  ∃ f s m,
    fs w !! jar = Some f
    ∧ json_dumps tc = Ret s
    ∧ fs (save flt jar lf tc w).2 !! jar
      = Some {| lead := lead f;
                zip_dir := Some (default [] (zip_dir f) ++ [m]) |}
    ∧ filename m = ja_jp_path_of (path lf)
    ∧ Tranlator.check_member json_loads m
      = (let* _ := json_loads s in
         Ret {| Tranlator.path := filename m;
                Tranlator.size := file_size m;
                Tranlator.mod_id := extract_mod_id (filename m);
                Tranlator.lang_code := extract_lang_code (filename m) |})
    ∧ check_member json_loads m
      = (let* json_data := json_loads s in
         Ret {| path := filename m;
                content := json_data;
                mod_id := extract_mod_id (filename m);
                lang_code := extract_lang_code (filename m) |}).
Proof.
  intros Hok.
  destruct (save_cases json_dumps flt jar lf tc w)
    as [[Hf _]|[(Hf & _)|[(Hf & _)
                         |(f & s & data & Hjar & Hs & Hd & Hfs & _)]]];
    [congruence..|].
  apply Utf8Facts.decode_encode in Hd.
  exists f, s, {| filename := ja_jp_path_of (path lf);
                  file_size := N.of_nat (length data);
                  payload := Ret data |}.
  split; [done|]. split; [done|]. split.
  { rewrite Hfs. apply lookup_insert_eq. }
  split; [done|].
  unfold Tranlator.check_member, check_member, bind. simpl.
  by rewrite Hd.
Qed.



End Facts.

Import Examples.

Lemma not_listed (p : pystr) (l : list pystr) :
  forallb (λ q, negb (pystr_eqb p q)) l = true → p ∉ l.
Proof.
  intros H Hin. rewrite forallb_forall in H.
  apply list_elem_of_In, H in Hin. unfold pystr_eqb in Hin.
  by rewrite bool_decide_eq_true_2 in Hin.
Qed.

Lemma no_clash_listed (l : list pystr) :
  forallb (λ a, forallb (λ b, negb (pystr_eqb b (backup_path_of a))) l) l
  = true →
  no_clash l.
Proof.
  intros H a b Ha Hb Heq. rewrite forallb_forall in H.
  apply list_elem_of_In, H in Ha. rewrite forallb_forall in Ha.
  apply list_elem_of_In, Ha in Hb. unfold pystr_eqb in Hb.
  by rewrite bool_decide_eq_true_2 in Hb.
Qed.

Lemma X10_witness :
  fs (run env_ken [jar_b] fs_corrupt) !! jar_a
  = Some {| lead := utf8 (str "not a zip"); zip_dir := None |}.
Proof.
  apply (X10_run_keeps_other_files Ref.float_truthy Ref.loads Ref.dumps
           header self env_ken (Some [jar_b]) (world_of fs_corrupt) jar_a).
  - reflexivity.
  - by apply not_listed.
Defined.

Lemma X11_witness :
  fs (run env_ken [jar_a] fs_sword) !! jar_b = None.
Proof.
  apply (X11_run_creates_backups_only Ref.float_truthy Ref.loads Ref.dumps
           header self env_ken (Some [jar_a]) (world_of fs_sword) jar_b).
  - reflexivity.
  - by apply not_listed.
Defined.


(** The move of the first entry fails part-way; no copy to a backup
    does. *)
Lemma X13_witness :
  let w := run env_move_breaks [jar_a] fs_sword in
  (fs w !! backup_path_of jar_a = None
   ∧ fs w !! jar_a = Some (archive [member en_us_m1 sword]))
  ∨ fs w !! backup_path_of jar_a = Some (archive [member en_us_m1 sword]).
Proof.
  apply (X13_run_backup_is_original Ref.float_truthy Ref.loads Ref.dumps
           header self env_move_breaks (Some [jar_a]) (world_of fs_sword)
           jar_a).
  - intros [|[|n]] f H; discriminate H.
  - reflexivity.
  - reflexivity.
  - intros a ->%list_elem_of_singleton.
    split; apply not_eq_sym, backup_path_neq.
Defined.

(** The hypothesis of X12 and X19 is needed.  When the move back fails
    part-way the archive is left truncated: its members are lost, and
    the locator finds nothing in it.  The backup, made before the move,
    holds the original. *)
Example members_lost_after_broken_move :
  let w := run env_move_breaks [jar_a] fs_sword in
  fs w !! jar_a = Some truncated
  ∧ (find_language_files_in_jar Ref.loads jar_a w).1 = []
  ∧ fs w !! backup_path_of jar_a = Some (archive [member en_us_m1 sword]).
Proof. by vm_compute. Qed.

(** The hypothesis of X13 is needed.  When the copy to the backup fails
    part-way, the truncated backup exists, is never made again, and the
    archive is replaced by the next entry. *)
Example backup_lost_after_broken_copy :
  let w := run env_backup_breaks [jar_a] fs_two_mods in
  fs w !! backup_path_of jar_a = Some truncated
  ∧ fs w !! jar_a
    = Some (archive [member en_us_m1 sword;
                     member (str "assets/m2/lang/en_us.json") sword;
                     member (str "assets/m2/lang/ja_jp.json")
                       (Ref.dump 0 v_ken)]).
Proof. by vm_compute. Qed.

Lemma X14_witness :
  requests (out (run env_ken [jar_a; jar_b] fs_corrupt))
  = [header ++ Ref.dump 0 (content lf_sword)].
Proof.
  apply (X14_run_requests Ref.float_truthy Ref.loads Ref.dumps
           header self env_ken [jar_a; jar_b] (world_of fs_corrupt)).
  - repeat (apply NoDup_cons; split; [by apply not_listed|]).
    apply NoDup_nil_2.
  - by apply no_clash_listed.
Defined.

Lemma X15_witness :
  ∃ successful,
    last (out (run env_ken [jar_a] fs_two_mods))
    = Some (Print (MsgSummary 2 successful))
    ∧ (successful ≤ 2)%nat.
Proof.
  apply (X15_run_summary Ref.float_truthy Ref.loads Ref.dumps
           header self env_ken [jar_a] (world_of fs_two_mods)).
  - done.
  - apply NoDup_singleton.
  - by apply no_clash_listed.
Defined.

Lemma X16_witness :
  fs (run env_ken [jar_a] fs_corrupt) = fs_corrupt
  ∧ requests (out (run env_ken [jar_a] fs_corrupt)) = [].
Proof.
  apply (X16_nothing_located Ref.float_truthy Ref.loads Ref.dumps
           header self env_ken (Some [jar_a]) (world_of fs_corrupt)).
  reflexivity.
Defined.

(** A mapping with a lone surrogate, as [json.loads] makes of the
    escape [\ud83d]: it is serialized as it is, and cannot be encoded. *)
Lemma X17_witness :
  let r := save_translated_json_to_jar Ref.dumps no_faults jar_a lf_sword
             (JDict [(str "item.sword", JStr [55357])])
             (world_of fs_sword) in
  r.1 = false
  ∧ fs r.2 = fs_sword
  ∧ ∃ e, last (out r.2) = Some (Print (MsgJarUpdateError e)).
Proof.
  apply (X17_save_rejects_bad_input Ref.dumps no_faults jar_a lf_sword
           (JDict [(str "item.sword", JStr [55357])]) (world_of fs_sword)).
  right. right.
  exists (Ref.dump 0 (JDict [(str "item.sword", JStr [55357])])),
    UnicodeEncodeError.
  split; reflexivity.
Defined.

Lemma X18_witness :
  ∃ f s m,
    fs_sword !! jar_a = Some f
    ∧ Ref.dumps v_ken = Ret s
    ∧ fs (save_translated_json_to_jar Ref.dumps no_faults jar_a lf_sword
            v_ken (world_of fs_sword)).2 !! jar_a
      = Some {| lead := lead f;
                zip_dir := Some (default [] (zip_dir f) ++ [m]) |}
    ∧ filename m = ja_jp_path_of en_us_m1
    ∧ Tranlator.check_member Ref.loads m
      = (let* _ := Ref.loads s in
         Ret {| Tranlator.path := filename m;
                Tranlator.size := file_size m;
                Tranlator.mod_id := extract_mod_id (filename m);
                Tranlator.lang_code := extract_lang_code (filename m) |})
    ∧ check_member Ref.loads m
      = (let* json_data := Ref.loads s in
         Ret {| path := filename m;
                content := json_data;
                mod_id := extract_mod_id (filename m);
                lang_code := extract_lang_code (filename m) |}).
Proof.
  apply (X18_saved_entry_reads_back Ref.loads Ref.dumps no_faults jar_a
           lf_sword v_ken (world_of fs_sword)).
  reflexivity.
Defined.


End RunFacts.
